(** * perceive-ui: theme, background effect and zoom manager

    A shallow embedding of the theme module of perceive-ui (the classes
    [WavesEffect], [StyleProperty], [ThemeAccentProperty], [Theme],
    [LightTheme], [DarkTheme] and [AppTheme]) together with the part of the
    JavaScript runtime and of the browser that the module talks to:
    [localStorage], the root element's style, the timer queue and the Vanta
    effect object.

    Layout: the runtime ([JS]), the browser environment, the classes of the
    source in source order, and then the properties. *)

From Stdlib Require Import ZArith String Ascii List Lia Bool.
From Stdlib Require Import Floats.PrimFloat Floats.SpecFloat Floats.FloatOps.
From Stdlib Require Import Floats.FloatClass.
From stdpp Require Import base option list gmap strings.

Local Open Scope string_scope.
Local Open Scope Z_scope.
Local Open Scope list_scope.

#[local] Set Warnings "-inexact-float".

(* ===================================================================== *)
(** * The JavaScript runtime *)
(* ===================================================================== *)

(** Strings are sequences of code units; the model keeps the code units
    0..255, which covers every string the module writes itself. *)

Module JS.

(** ** Numbers

    The module uses numbers in two roles, and each gets the representation
    that fits it.

    - The accent hue is produced by [parseInt] and printed back with
      [toString]: an integer-valued Number, an infinity or [NaN].  It is
      modelled by [IntNumber].  [Int z] stands for the Number whose value
      is the integer [z]; the integers that are Numbers are those of
      [is_Number] below.  JavaScript's [-0] prints as ["0"] and is
      identified with [0].
    - The zoom factor is incremented by [0.1]: a binary64 value, modelled by
      Rocq's primitive [float] (IEEE 754 binary64, round to nearest even),
      so that [+], [-], [<] and [>] are the operations the engine runs. *)

Inductive IntNumber :=
| NaN
| Infinity (negative : bool)
| Int (z : Z).

(** The binary64 value nearest to the integer [m >= 0], ties to even: [m]
    itself while it has at most 53 bits, and otherwise [m] rounded to a
    multiple of the power of two that leaves 53 bits. *)
Definition nearest_binary64 (m : Z) : Z :=
  let e := Z.log2 m - 52 in
  if e <=? 0 then m
  else
    let q := m / 2 ^ e in
    let r := m mod 2 ^ e in
    let half := 2 ^ (e - 1) in
    if (half <? r) || ((half =? r) && Z.odd q)
    then (q + 1) * 2 ^ e
    else q * 2 ^ e.

(** The Number for the mathematical integer [m]; what rounds to [2^1024]
    is beyond the largest finite Number. *)
Definition to_Number (m : Z) : IntNumber :=
  let r := nearest_binary64 (Z.abs m) in
  if 2 ^ 1024 <=? r then Infinity (m <? 0) else Int (Z.sgn m * r).

(** The integers that are Numbers. *)
Definition is_Number (z : Z) : Prop := to_Number z = Int z.

(** *** Decimal numerals *)

Definition digit_char (d : Z) : ascii := ascii_of_nat (48 + Z.to_nat d).

Definition is_digit (c : ascii) : bool :=
  let n := nat_of_ascii c in (48 <=? n)%nat && (n <=? 57)%nat.

Definition digit_value (c : ascii) : Z := Z.of_nat (nat_of_ascii c) - 48.

(** The digits of [n >= 0], most significant first, pushed in front of
    [acc].  [fuel] bounds the number of digits. *)
Fixpoint decimal_digits (fuel : nat) (n : Z) (acc : string) : string :=
  match fuel with
  | O => acc
  | S fuel' =>
      let acc' := String (digit_char (n mod 10)) acc in
      if n / 10 =? 0 then acc' else decimal_digits fuel' (n / 10) acc'
  end.

Definition decimal (n : Z) : string :=
  decimal_digits (S (Z.to_nat (Z.log2 n))) n "".

(** Drops the zeros at the end of a digit string (["1200"] to ["12"]). *)
Fixpoint strip_trailing_zeros (s : string) : string :=
  match s with
  | EmptyString => EmptyString
  | String c rest =>
      match strip_trailing_zeros rest with
      | EmptyString => if Ascii.eqb c "0" then EmptyString else String c EmptyString
      | rest' => String c rest'
      end
  end.

Fixpoint zeros (n : nat) : string :=
  match n with
  | O => ""
  | S k => String "0" (zeros k)
  end.

(** *** Number::toString (radix 10), ECMA-262 6.1.6.1.20

    Given the digit string [digits] of [s] (of length [k], no trailing
    zero unless [k = 1]) and the exponent [n] with value [s * 10^(n-k)],
    steps 7 to 11 of the algorithm. *)
Definition format_decimal (digits : string) (n : Z) : string :=
  let k := Z.of_nat (String.length digits) in
  if (k <=? n) && (n <=? 21) then
    digits +:+ zeros (Z.to_nat (n - k))
  else if (0 <? n) && (n <=? 21) then
    substring 0 (Z.to_nat n) digits +:+ "." +:+
    substring (Z.to_nat n) (Z.to_nat (k - n)) digits
  else if (-6 <? n) && (n <=? 0) then
    "0." +:+ zeros (Z.to_nat (- n)) +:+ digits
  else
    let e := n - 1 in
    let exponent := (if e <? 0 then "-" else "+") +:+ decimal (Z.abs e) in
    match digits with
    | String d EmptyString => String d ("e" +:+ exponent)
    | String d rest => String d ("." +:+ rest +:+ "e" +:+ exponent)
    | EmptyString => EmptyString
    end.

(** Is [c] at least as near to [a / b] as [c'] is (on a tie, is it the
    even one)? *)
Definition nearer (a b c c' : Z) : bool :=
  let d := Z.abs (c * b - a) in
  let d' := Z.abs (c' * b - a) in
  (d <? d') || ((d =? d') && Z.even c).

(** Is [z] the Number that the integer [c] is read as? *)
Definition reads_back (z c : Z) : bool :=
  match to_Number c with
  | Int z' => z' =? z
  | _ => false
  end.

(** Step 5 of the algorithm for the Number [z > 0]: the [(s, q)] with the
    fewest digits in [s] such that [s * 10^q] reads back as [z], and among
    those the nearest to [z].  [q] counts down; the candidates are the two
    multiples of [10^q] around [z], and with [q = 0] it is [z] itself. *)
Fixpoint shortest_integer (z : Z) (q : nat) : Z * nat :=
  match q with
  | O => (z, O)
  | S q' =>
      let p := 10 ^ Z.of_nat q in
      let lo := z / p in
      let hi := lo + 1 in
      match reads_back z (lo * p), reads_back z (hi * p) with
      | true, true => if nearer z p lo hi then (lo, q) else (hi, q)
      | true, false => (lo, q)
      | false, true => (hi, q)
      | false, false => shortest_integer z q'
      end
  end.

(** The numeral of the Number [z > 0]: below [10^21] (where [n <= 21]) the
    digits of [s] followed by [q] zeros, and the exponential form from
    [10^21] on. *)
Definition positive_toString (z : Z) : string :=
  let '(s, q) := shortest_integer z (String.length (decimal z) - 1) in
  if z <? 10 ^ 21 then decimal s +:+ zeros q
  else
    let all := decimal s in
    format_decimal (strip_trailing_zeros all)
      (Z.of_nat (String.length all + q)).

(** [String(x)], [x.toString()] and the interpolation of [x] in a template
    literal, for the Numbers of [IntNumber]. *)
Definition toString (x : IntNumber) : string :=
  match x with
  | NaN => "NaN"
  | Infinity negative => if negative then "-Infinity" else "Infinity"
  | Int z =>
      if z =? 0 then "0"
      else if z <? 0 then "-" +:+ positive_toString (- z)
      else positive_toString z
  end.

(** *** parseInt(string, 10), ECMA-262 19.2.5 *)

(** StrWhiteSpaceChar among the code units below 256: TAB, LF, VT, FF, CR,
    SP and NBSP. *)
Definition is_whitespace (c : ascii) : bool :=
  let n := nat_of_ascii c in
  ((9 <=? n)%nat && (n <=? 13)%nat) || (n =? 32)%nat || (n =? 160)%nat.

Fixpoint skip_whitespace (s : string) : string :=
  match s with
  | String c rest => if is_whitespace c then skip_whitespace rest else s
  | EmptyString => s
  end.

(** The value of the longest prefix of decimal digits, [None] when the
    prefix is empty; [acc] is the value read so far. *)
Fixpoint leading_digits (s : string) (acc : option Z) : option Z :=
  match s with
  | String c rest =>
      if is_digit c
      then leading_digits rest (Some (10 * default 0 acc + digit_value c))
      else acc
  | EmptyString => acc
  end.

Definition parseInt (s : string) : IntNumber :=
  let trimmed := skip_whitespace s in
  let '(sign, rest) :=
    match trimmed with
    | String "-" r => (-1, r)
    | String "+" r => (1, r)
    | _ => (1, trimmed)
    end in
  match leading_digits rest None with
  | None => NaN
  | Some m => to_Number (sign * m)
  end.

(** ** Binary64 numbers *)

(** The Number with the integer value [z], for [0 <= z < 2^53]. *)
Definition float_of_Z (z : Z) : float := of_uint63 (Uint63Axioms.of_Z z).

(** *** Decimal to binary64

    The binary64 value nearest to [num / den] (ties to even) for
    [num, den > 0], with sign [neg]: the quotient is taken with enough
    bits and rounded by the specification's own rounding function. *)
Definition round_ratio (neg : bool) (num den : Z) : spec_float :=
  let '(mz, ez, lz) := SFdiv_core_binary prec emax num 0 den 0 in
  binary_round_aux prec emax neg mz ez lz.

(** The binary64 value nearest to [m * 10^e], for [m >= 0]. *)
Definition decimal_to_spec (neg : bool) (m e : Z) : spec_float :=
  if m =? 0 then S754_zero neg
  else if 0 <=? e then round_ratio neg (m * 10 ^ e) 1
  else round_ratio neg m (10 ^ (- e)).

(** *** parseFloat(string), ECMA-262 19.2.4

    The longest prefix of the trimmed string that is a StrDecimalLiteral
    is read; [NaN] when there is none. *)

Fixpoint take_digits (s : string) : string * string :=
  match s with
  | String c rest =>
      if is_digit c
      then let '(d, r) := take_digits rest in (String c d, r)
      else (EmptyString, s)
  | EmptyString => (EmptyString, EmptyString)
  end.

Definition digits_value (d : string) : Z := default 0 (leading_digits d None).

Definition take_sign (s : string) : bool * string :=
  match s with
  | String "-" r => (true, r)
  | String "+" r => (false, r)
  | _ => (false, s)
  end.

(** An ExponentPart at the head of [s]: its value and what follows it;
    0 and [s] itself when [s] does not start with one. *)
Definition exponent_part (s : string) : Z * string :=
  match s with
  | String c r =>
      if Ascii.eqb c "e" || Ascii.eqb c "E" then
        let '(neg, r') := take_sign r in
        let '(d, rest) := take_digits r' in
        if String.eqb d "" then (0, s)
        else (if neg then - digits_value d else digits_value d, rest)
      else (0, s)
  | EmptyString => (0, s)
  end.

(** The longest StrDecimalLiteral at the head of [s]: its value and what
    follows it; [None] when [s] does not start with one. *)
Definition read_decimal (s : string) : option (float * string) :=
  let '(neg, t) := take_sign s in
  if String.prefix "Infinity" t
  then Some (if neg then neg_infinity else infinity,
             substring 8 (String.length t - 8) t)
  else
    let '(int_part, r1) := take_digits t in
    let '(frac_part, r2) :=
      match r1 with
      | String "." r => take_digits r
      | _ => (EmptyString, r1)
      end in
    if String.eqb (int_part +:+ frac_part) "" then None
    else
      let '(e, rest) := exponent_part r2 in
      Some (SF2Prim (decimal_to_spec neg (digits_value (int_part +:+ frac_part))
                       (e - Z.of_nat (String.length frac_part))),
            rest).

Definition parseFloat (s : string) : float :=
  match read_decimal (skip_whitespace s) with
  | Some (x, _) => x
  | None => nan
  end.

(** *** ToNumber applied to a string (StringToNumber), ECMA-262 7.1.4.1.1

    What [s - d] makes of a string [s]: the whole string, white space at
    both ends apart, must be a numeric literal; the empty string is 0. *)

(** The digits of radix [radix] at the head of [s], as their value and
    what follows; [acc] is the value read so far, [None] before any digit. *)
Fixpoint radix_digits (radix : Z) (s : string) (acc : option Z)
  : option Z * string :=
  match s with
  | String c rest =>
      let n := Z.of_nat (nat_of_ascii c) in
      let d :=
        if (48 <=? n) && (n <=? 57) then n - 48
        else if (97 <=? n) && (n <=? 102) then n - 87
        else if (65 <=? n) && (n <=? 70) then n - 55
        else radix in
      if d <? radix
      then radix_digits radix rest (Some (radix * default 0 acc + d))
      else (acc, s)
  | EmptyString => (acc, s)
  end.

(** A NonDecimalIntegerLiteral ([0x], [0o], [0b]) at the head of [s]. *)
Definition read_radix_literal (s : string) : option (float * string) :=
  match s with
  | String "0" (String c rest) =>
      let radix :=
        if Ascii.eqb c "x" || Ascii.eqb c "X" then 16
        else if Ascii.eqb c "o" || Ascii.eqb c "O" then 8
        else if Ascii.eqb c "b" || Ascii.eqb c "B" then 2
        else 0 in
      if radix =? 0 then None
      else
        match radix_digits radix rest None with
        | (Some m, rest') => Some (SF2Prim (decimal_to_spec false m 0), rest')
        | (None, _) => None
        end
  | _ => None
  end.

Definition ToNumber (s : string) : float :=
  let t := skip_whitespace s in
  if String.eqb t "" then 0%float
  else
    let literal :=
      match read_radix_literal t with
      | Some r => Some r
      | None => read_decimal t
      end in
    match literal with
    | Some (x, rest) => if String.eqb (skip_whitespace rest) "" then x else nan
    | None => nan
    end.

(** *** Number::toString for a binary64 value

    The digits are the shortest decimal that reads back as the same
    value, and among those the nearest to it (ECMA-262 6.1.6.1.20, step 5
    and note 2). *)

(** For [0 < num / den < 1]: the [n] with [10^(n-1) <= num/den < 10^n],
    counting down from [n]. *)
Fixpoint magnitude_below_one (fuel : nat) (num den n : Z) : Z :=
  match fuel with
  | O => n
  | S fuel' =>
      if den <=? num * 10 then n
      else magnitude_below_one fuel' (num * 10) den (n - 1)
  end.

(** The [n] with [10^(n-1) <= num/den < 10^n]. *)
Definition magnitude (num den : Z) : Z :=
  if den <=? num then Z.of_nat (String.length (decimal (num / den)))
  else magnitude_below_one 400 num den 0.

(** [num / den / 10^q], as a fraction. *)
Definition scaled (num den q : Z) : Z * Z :=
  if 0 <=? q then (num, den * 10 ^ q) else (num * 10 ^ (- q), den).

(** The first [k], counting up, for which a [k]-digit [s] with
    [s * 10^(n0-k)] reading back as [x] exists, as [(s, n0 - k)].  The
    candidates are the two [k]-digit decimals around the value. *)
Fixpoint shortest (fuel : nat) (k : Z) (x : spec_float) (num den n0 : Z)
  : Z * Z :=
  let q := n0 - k in
  let '(a, b) := scaled num den q in
  let lo := a / b in
  let hi := lo + 1 in
  match fuel with
  | O => (lo, q)
  | S fuel' =>
      let reads_back c :=
        match SFcompare (decimal_to_spec false c q) x with
        | Some Eq => true
        | _ => false
        end in
      match reads_back lo, reads_back hi with
      | true, true => if nearer a b lo hi then (lo, q) else (hi, q)
      | true, false => (lo, q)
      | false, true => (hi, q)
      | false, false => shortest fuel' (k + 1) x num den n0
      end
  end.

Definition finite_toString (m : positive) (e : Z) : string :=
  let '(num, den) :=
    if 0 <=? e then (Zpos m * 2 ^ e, 1) else (Zpos m, 2 ^ (- e)) in
  let '(s, q) :=
    shortest 17 1 (S754_finite false m e) num den (magnitude num den) in
  let all := decimal s in
  format_decimal (strip_trailing_zeros all) (Z.of_nat (String.length all) + q).

Definition float_toString (x : float) : string :=
  match Prim2SF x with
  | S754_nan => "NaN"
  | S754_zero _ => "0"
  | S754_infinity neg => if neg then "-Infinity" else "Infinity"
  | S754_finite neg m e => (if neg then "-" else "") +:+ finite_toString m e
  end.

(** ** Truthiness

    [v ? a : b] and [v || b] for a [v] that is a string or [null]: [null]
    and the empty string are falsy. *)
Definition truthy (v : option string) : bool :=
  match v with
  | Some s => negb (String.eqb s "")
  | None => false
  end.

End JS.

(* ===================================================================== *)
(** * The browser *)
(* ===================================================================== *)

(** A completion callback handed to [destroyEffect].  The model does not
    run its body: a call is recorded in the trace under this name. *)
Definition PostAction := nat.

(** ** The opacity of the effect's canvas

    [effect.renderer.domElement.style.opacity] belongs to the browser: the
    text it gives back after a number was assigned (CSS parsing and
    serialisation) is not fixed by this program.  The model therefore
    records what the program did to the property; the text it holds is
    computed by [opacity_text] below, from the way the style object gives
    back a number. *)
Inductive Opacity :=
| OpacityEmpty
    (** the empty string: nothing was assigned yet *)
| Assigned (x : float)
    (** the number [x] was assigned to a style that held nothing *)
| FadedFrom (o : Opacity) (subtractionFactor : float).
    (** the body of a fade step ran on the opacity [o] *)

Module CSS.


(** A style object that kept every digit of what it was given. *)
Definition keep_all_digits (x : float) : option string :=
  match Prim2SF x with
  | S754_infinity _ | S754_nan => None
  | _ => Some (JS.float_toString x)
  end.

End CSS.

(** The object [window.VANTA.WAVES(config)] returns. *)
Record VantaObject := {
  vanta_id : nat;
  vanta_el : string;       (* config.el *)
  vanta_color : Z;         (* config.color *)
  opacity : Opacity;       (* renderer.domElement.style.opacity *)
}.

(** ** Timers *)

(** The two arrow functions [WavesEffect.destroyEffect] passes to
    [setTimeout], with what each captured besides [this]. *)
Inductive Callback :=
| FadeStep (subtractionFactor : float)
| DestroyAndNotify (postAction : PostAction).

Record Timer := {
  due : Z;                 (* milliseconds *)
  callback : Callback;
}.

(** The timer that runs next, and the others: the least due time, and
    among equal due times the one registered first.  The list is in
    registration order. *)
Fixpoint pop_timer (ts : list Timer) : option (Timer * list Timer) :=
  match ts with
  | [] => None
  | t :: rest =>
      match pop_timer rest with
      | None => Some (t, [])
      | Some (t', rest') =>
          if due t <=? due t' then Some (t, rest) else Some (t', t :: rest')
      end
  end.

(** ** What the program does to the outside, in order *)
Inductive Event :=
| StorageSet (key value : string)        (* localStorage.setItem *)
| StyleSet (name value : string)         (* documentElement.style.setProperty *)
| EffectCreated (id : nat) (color : Z)   (* VANTA.WAVES(config) *)
| EffectDestroyed (id : nat)             (* effect.destroy() *)
| OpacitySet (id : nat) (o : Opacity)    (* style.opacity = ... *)
| PostActionCalled (p : PostAction)      (* postAction() *)
| UncaughtTypeError.                     (* thrown inside a timer callback *)

Record Env := {
  localStorage : gmap string string;
  rootStyle : gmap string string;        (* document.documentElement.style *)
  timers : list Timer;
  clock : Z;
  created : nat;                         (* Vanta objects created so far *)
  trace : list Event;
}.

Definition log (ev : Event) (e : Env) : Env :=
  {| localStorage := localStorage e; rootStyle := rootStyle e;
     timers := timers e; clock := clock e; created := created e;
     trace := trace e ++ [ev] |}.

Definition getItem (key : string) (e : Env) : option string :=
  localStorage e !! key.

Definition setItem (key value : string) (e : Env) : Env :=
  log (StorageSet key value)
    {| localStorage := <[key := value]> (localStorage e);
       rootStyle := rootStyle e; timers := timers e; clock := clock e;
       created := created e; trace := trace e |}.

Definition setProperty (name value : string) (e : Env) : Env :=
  log (StyleSet name value)
    {| localStorage := localStorage e;
       rootStyle := <[name := value]> (rootStyle e);
       timers := timers e; clock := clock e;
       created := created e; trace := trace e |}.

Definition setTimeout (c : Callback) (delay : Z) (e : Env) : Env :=
  {| localStorage := localStorage e; rootStyle := rootStyle e;
     timers := timers e ++ [{| due := clock e + delay; callback := c |}];
     clock := clock e; created := created e; trace := trace e |}.

(** [window.VANTA.WAVES(config)]: a new object with a fresh identity. *)
Definition VANTA_WAVES (el : string) (color : Z) (e : Env) : VantaObject * Env :=
  ({| vanta_id := created e; vanta_el := el; vanta_color := color;
      opacity := OpacityEmpty |},
   log (EffectCreated (created e) color)
     {| localStorage := localStorage e; rootStyle := rootStyle e;
        timers := timers e; clock := clock e;
        created := S (created e); trace := trace e |}).

(** The page as it loads: the storage of earlier visits, and nothing else. *)
Definition page_load (storage : gmap string string) : Env :=
  {| localStorage := storage; rootStyle := ∅; timers := []; clock := 0;
     created := 0; trace := [] |}.

(* ===================================================================== *)
(** * The classes of the module *)
(* ===================================================================== *)

(** ** WavesEffect (extends VantaEffect) *)

(** Of [config] the model keeps [el] and [color], the two entries the
    module sets; the others are constants handed to Vanta. *)
Record WavesEffect := {
  element : string;
  config_color : option Z;       (* config['color'], absent until createEffect *)
  effect : option VantaObject;   (* undefined until createEffect, and after delete *)
  effectDelay : Z;
  effectInterval : Z;
}.

Definition set_effect (v : option VantaObject) (this : WavesEffect) : WavesEffect :=
  {| element := element this; config_color := config_color this;
     effect := v;
     effectDelay := effectDelay this; effectInterval := effectInterval this |}.

(** The argument of [createEffect]: an object whose ['color'] is read. *)
Record EffectProps := { color : option Z }.

Module WavesEffect.

(** [new WavesEffect(element)] *)
Definition new (element : string) : WavesEffect :=
  {| element := element; config_color := None; effect := None;
     effectDelay := 50; effectInterval := 10 |}.

(** [props['color'] || 0x00000] *)
Definition color_or_default (props : EffectProps) : Z :=
  match color props with
  | Some c => if c =? 0 then 0 else c
  | None => 0
  end.

Definition createEffect (props : EffectProps) (this : WavesEffect) (e : Env)
  : WavesEffect * Env :=
  let c := color_or_default props in
  let '(v, e') := VANTA_WAVES (element this) c e in
  ({| element := element this; config_color := Some c; effect := Some v;
      effectDelay := effectDelay this;
      effectInterval := effectInterval this |}, e').

(** [1.0 / this.effectInterval] *)
Definition subtractionFactor (this : WavesEffect) : float :=
  (1 / JS.float_of_Z (effectInterval this))%float.

(** The [for] loop of [destroyEffect]: one fade timer for each
    [i = 1 .. effectInterval], at [effectDelay * i]. *)
Definition schedule_fade (this : WavesEffect) (e : Env) : Env :=
  fold_left
    (fun e i =>
       setTimeout (FadeStep (subtractionFactor this))
         (effectDelay this * Z.of_nat i) e)
    (seq 1 (Z.to_nat (effectInterval this))) e.

Definition destroyEffect (postAction : PostAction) (this : WavesEffect) (e : Env)
  : Env :=
  setTimeout (DestroyAndNotify postAction)
    (effectDelay this * effectInterval this)
    (schedule_fade this e).

(** The number the body of the fade timer assigns to [style.opacity],
    which holds [text]: [1.0 - subtractionFactor] when it is empty, and
    otherwise [style.opacity - subtractionFactor], the text converted to a
    Number by the subtraction. *)
Definition faded_value (sf : float) (text : string) : float :=
  if String.eqb text "" then (1 - sf)%float
  else (JS.ToNumber text - sf)%float.

(** What a fade step leaves in [style.opacity], which held [o]. *)
Definition faded (sf : float) (o : Opacity) : Opacity := FadedFrom o sf.

(** The body of the fade timer.  [None]: [this.effect] is undefined and
    reading [renderer] of it throws. *)
Definition fade_step (sf : float) (this : WavesEffect) (e : Env)
  : option (WavesEffect * Env) :=
  match effect this with
  | None => None
  | Some v =>
      let o := faded sf (opacity v) in
      Some (set_effect
              (Some {| vanta_id := vanta_id v; vanta_el := vanta_el v;
                       vanta_color := vanta_color v; opacity := o |}) this,
            log (OpacitySet (vanta_id v) o) e)
  end.

(** The body of the last timer: destroy, delete, call back. *)
Definition destroy_and_notify (postAction : PostAction) (this : WavesEffect)
  (e : Env) : option (WavesEffect * Env) :=
  match effect this with
  | None => None
  | Some v =>
      Some (set_effect None this,
            log (PostActionCalled postAction)
              (log (EffectDestroyed (vanta_id v)) e))
  end.

End WavesEffect.

(** ** StyleProperty and ThemeAccentProperty *)

Record StyleProperty := {
  property : string;
  value : string;
}.

Record ThemeAccentProperty := {
  accent : StyleProperty;        (* the fields of the superclass *)
  hue : JS.IntNumber;
  saturation : Z;
  lightness : Z;
}.

Module ThemeAccentProperty.

(** The template literal [`hsl(${hue}, ${saturation}%, ${lightness}%)`]. *)
Definition hsl (hue : JS.IntNumber) (saturation lightness : Z) : string :=
  "hsl(" +:+ JS.toString hue +:+ ", " +:+ JS.toString (JS.Int saturation)
  +:+ "%, " +:+ JS.toString (JS.Int lightness) +:+ "%)".

Definition new (property : string) (hue : JS.IntNumber) : ThemeAccentProperty :=
  let saturation := 100 in
  let lightness := 60 in
  {| accent := {| property := property;
                  value := hsl hue saturation lightness |};
     hue := hue; saturation := saturation; lightness := lightness |}.

(** [update(hue)]; the module never calls it without an argument, so the
    default [this.hue] of the parameter is not modelled. *)
Definition update (hue : JS.IntNumber) (this : ThemeAccentProperty)
  : ThemeAccentProperty :=
  {| accent := {| property := property (accent this);
                  value := hsl hue (saturation this) (lightness this) |};
     hue := hue;
     saturation := saturation this; lightness := lightness this |}.

End ThemeAccentProperty.

(** ** Theme, LightTheme and DarkTheme *)

Record Theme := {
  hueKey : string;
  backgroundEffectColor : Z;
  iconFilter : StyleProperty;
  themeAccent : ThemeAccentProperty;
  fontColor : StyleProperty;
  baseColor : StyleProperty;
  darkAccent : StyleProperty;
  midAccent : StyleProperty;
  brightAccent : StyleProperty;
}.

Definition set_themeAccent (a : ThemeAccentProperty) (this : Theme) : Theme :=
  {| hueKey := hueKey this;
     backgroundEffectColor := backgroundEffectColor this;
     iconFilter := iconFilter this; themeAccent := a;
     fontColor := fontColor this; baseColor := baseColor this;
     darkAccent := darkAccent this; midAccent := midAccent this;
     brightAccent := brightAccent this |}.

Module Theme.

(** [getAccentHue] reads one field of [this], [hueKey]; the field
    initialisers of the subclasses call it when only that field is set, so
    it takes the key. *)
Definition getAccentHue (hueKey : string) (e : Env) : JS.IntNumber :=
  let stored := getItem hueKey e in
  if JS.truthy stored then JS.parseInt (default "" stored) else JS.Int 0.

Definition setProp (styleProp : StyleProperty) (e : Env) : Env :=
  setProperty (property styleProp) (value styleProp) e.

Definition setAccentHue (hue : JS.IntNumber) (this : Theme) (e : Env)
  : Theme * Env :=
  let this' :=
    set_themeAccent (ThemeAccentProperty.update hue (themeAccent this)) this in
  (this',
   setItem (hueKey this') (JS.toString hue)
     (setProp (accent (themeAccent this')) e)).

Definition setStyleProperties (this : Theme) (e : Env) : Env :=
  setProp (brightAccent this)
    (setProp (midAccent this)
       (setProp (darkAccent this)
          (setProp (baseColor this)
             (setProp (fontColor this)
                (setProp (accent (themeAccent this))
                   (setProp (iconFilter this) e)))))).

End Theme.

(** [new LightTheme()] *)
Definition LightTheme (e : Env) : Theme :=
  let hueKey := "light-accent-hue" in
  {| hueKey := hueKey;
     backgroundEffectColor := 0x9b9b9b;
     iconFilter := {| property := "--icon-filter"; value := "brightness(100%)" |};
     themeAccent :=
       ThemeAccentProperty.new "--theme-accent" (Theme.getAccentHue hueKey e);
     fontColor := {| property := "--font-color"; value := "#292929" |};
     baseColor := {| property := "--base-color"; value := "#f5f5f5" |};
     darkAccent := {| property := "--dark-accent"; value := "#9b9b9b" |};
     midAccent := {| property := "--mid-accent"; value := "#efefef" |};
     brightAccent := {| property := "--bright-accent"; value := "#ffffff" |} |}.

(** [new DarkTheme()] *)
Definition DarkTheme (e : Env) : Theme :=
  let hueKey := "dark-accent-hue" in
  {| hueKey := hueKey;
     backgroundEffectColor := 0x202020;
     iconFilter := {| property := "--icon-filter"; value := "brightness(250%)" |};
     themeAccent :=
       ThemeAccentProperty.new "--theme-accent" (Theme.getAccentHue hueKey e);
     fontColor := {| property := "--font-color"; value := "#eaeaea" |};
     baseColor := {| property := "--base-color"; value := "#454545" |};
     darkAccent := {| property := "--dark-accent"; value := "#3c3c3c" |};
     midAccent := {| property := "--mid-accent"; value := "#484848" |};
     brightAccent := {| property := "--bright-accent"; value := "#515151" |} |}.

(** ** AppTheme *)

(** [this.theme.themes] is the object literal [{light: ..., dark: ...}]:
    two own properties, in this order, and the properties every object
    literal inherits from [Object.prototype]. *)
Inductive ThemeKey := light | dark.

Record Themes := {
  themes_light : Theme;
  themes_dark : Theme;
}.

(** [Object.keys(this.theme.themes)] *)
Definition theme_keys : list string := ["light"; "dark"].

Definition Object_prototype : list string :=
  ["constructor"; "hasOwnProperty"; "isPrototypeOf"; "propertyIsEnumerable";
   "toLocaleString"; "toString"; "valueOf"; "__proto__";
   "__defineGetter__"; "__defineSetter__"; "__lookupGetter__";
   "__lookupSetter__"].

(** What [this.theme.themes[mode]] evaluates to, which is also what
    [this.theme.selected] can hold. *)
Inductive Selected :=
| NoTheme                   (* undefined *)
| TheTheme (k : ThemeKey)   (* the theme object under an own key *)
| Inherited (name : string) (* a function or object of Object.prototype *).

Definition themes_get (mode : string) : Selected :=
  if String.eqb mode "light" then TheTheme light
  else if String.eqb mode "dark" then TheTheme dark
  else if existsb (String.eqb mode) Object_prototype then Inherited mode
  else NoTheme.

Definition theme_at (k : ThemeKey) (ts : Themes) : Theme :=
  match k with
  | light => themes_light ts
  | dark => themes_dark ts
  end.

Definition set_theme_at (k : ThemeKey) (t : Theme) (ts : Themes) : Themes :=
  match k with
  | light => {| themes_light := t; themes_dark := themes_dark ts |}
  | dark => {| themes_light := themes_light ts; themes_dark := t |}
  end.

(** The fields of [AppTheme], [this.a.b] written [a_b].  [effect_selected]
    tells whether [this.effect.selected] still refers to the [WavesEffect]
    ([delete] makes it undefined); the object itself outlives the property,
    because the timer callbacks hold it. *)
Record AppTheme := {
  theme_themes : Themes;
  theme_selected : Selected;
  effect_key : string;
  effect_mode : string;
  effect_selected : bool;
  zoom_key : string;
  zoom_factor : float;
  zoom_step : float;
  zoom_min : float;
  zoom_max : float;
}.

Definition set_mode_selected (mode : string) (sel : Selected) (a : AppTheme)
  : AppTheme :=
  {| theme_themes := theme_themes a; theme_selected := sel;
     effect_key := effect_key a; effect_mode := mode;
     effect_selected := effect_selected a;
     zoom_key := zoom_key a; zoom_factor := zoom_factor a;
     zoom_step := zoom_step a; zoom_min := zoom_min a;
     zoom_max := zoom_max a |}.

Definition set_theme_themes (ts : Themes) (a : AppTheme) : AppTheme :=
  {| theme_themes := ts; theme_selected := theme_selected a;
     effect_key := effect_key a; effect_mode := effect_mode a;
     effect_selected := effect_selected a;
     zoom_key := zoom_key a; zoom_factor := zoom_factor a;
     zoom_step := zoom_step a; zoom_min := zoom_min a;
     zoom_max := zoom_max a |}.

Definition set_effect_selected (b : bool) (a : AppTheme) : AppTheme :=
  {| theme_themes := theme_themes a; theme_selected := theme_selected a;
     effect_key := effect_key a; effect_mode := effect_mode a;
     effect_selected := b;
     zoom_key := zoom_key a; zoom_factor := zoom_factor a;
     zoom_step := zoom_step a; zoom_min := zoom_min a;
     zoom_max := zoom_max a |}.

Definition set_zoom_factor (f : float) (a : AppTheme) : AppTheme :=
  {| theme_themes := theme_themes a; theme_selected := theme_selected a;
     effect_key := effect_key a; effect_mode := effect_mode a;
     effect_selected := effect_selected a;
     zoom_key := zoom_key a; zoom_factor := f;
     zoom_step := zoom_step a; zoom_min := zoom_min a;
     zoom_max := zoom_max a |}.

(** The page: the browser, the [AppTheme] and the [WavesEffect] it
    created. *)
Record World := {
  env : Env;
  waves : WavesEffect;
  app : AppTheme;
}.

(** How a method call ends: it returns, or a [TypeError] leaves it; either
    way with the state reached so far. *)
Inductive Completion :=
| Normal (w : World)
| Throw (w : World).

Module AppTheme.

(** The constructor, field initialisers first.  [None]: a [TypeError]
    leaves the constructor, which happens before anything was written. *)
Definition new (e : Env) : option World :=
  let themes := {| themes_light := LightTheme e; themes_dark := DarkTheme e |} in
  let effect_key := "mode" in
  let default_mode := nth 0 theme_keys "" in
  let wavesEffect := WavesEffect.new "#perceive" in
  let zoom_key := "zoom" in
  let default_factor := 1%float in
  (* constructor() *)
  let stored_mode := getItem effect_key e in
  let mode :=
    if JS.truthy stored_mode then default "" stored_mode else default_mode in
  match themes_get mode with
  | TheTheme k =>
      let selected := theme_at k themes in
      let e1 := Theme.setStyleProperties selected e in
      let '(wavesEffect', e2) :=
        WavesEffect.createEffect
          {| color := Some (backgroundEffectColor selected) |} wavesEffect e1 in
      let zoomFactor := getItem zoom_key e2 in
      Some {| env := e2;
              waves := wavesEffect';
              app := {| theme_themes := themes;
                        theme_selected := TheTheme k;
                        effect_key := effect_key;
                        effect_mode := mode;
                        effect_selected := true;
                        zoom_key := zoom_key;
                        zoom_factor :=
                          if JS.truthy zoomFactor
                          then JS.parseFloat (default "" zoomFactor)
                          else default_factor;
                        zoom_step := 0.1; zoom_min := 1; zoom_max := 2 |} |}
  | NoTheme | Inherited _ => None
  end.

Definition isEffectActive (w : World) : bool := effect_selected (app w).

Definition destroyEffect (postAction : PostAction) (w : World) : Completion :=
  if effect_selected (app w) then
    Normal {| env := WavesEffect.destroyEffect postAction (waves w) (env w);
              waves := waves w;
              app := set_effect_selected false (app w) |}
  else Throw w.

Definition getMode (w : World) : string := effect_mode (app w).

Definition setTheme (mode : string) (w : World) : Completion :=
  match themes_get mode with
  | NoTheme => Normal w
  | Inherited name =>
      (* truthy, and no theme: [setStyleProperties] is not a function *)
      Throw {| env := env w; waves := waves w;
               app := set_mode_selected mode (Inherited name) (app w) |}
  | TheTheme k =>
      let a := set_mode_selected mode (TheTheme k) (app w) in
      let selected := theme_at k (theme_themes a) in
      let e1 := Theme.setStyleProperties selected (env w) in
      if effect_selected a then
        match effect (waves w) with
        | None => Throw {| env := e1; waves := waves w; app := a |}
        | Some v =>
            let e2 := log (EffectDestroyed (vanta_id v)) e1 in
            let '(wavesEffect, e3) :=
              WavesEffect.createEffect
                {| color := Some (backgroundEffectColor selected) |}
                (set_effect None (waves w)) e2 in
            Normal {| env := setItem (effect_key a) (effect_mode a) e3;
                      waves := wavesEffect; app := a |}
        end
      else
        Normal {| env := setItem (effect_key a) (effect_mode a) e1;
                  waves := waves w; app := a |}
  end.

Definition setThemeAccentHue (hue : JS.IntNumber) (w : World) : Completion :=
  match theme_selected (app w) with
  | TheTheme k =>
      let '(t, e) :=
        Theme.setAccentHue hue (theme_at k (theme_themes (app w))) (env w) in
      Normal {| env := e; waves := waves w;
                app := set_theme_themes
                         (set_theme_at k t (theme_themes (app w))) (app w) |}
  | NoTheme | Inherited _ => Throw w
  end.

(** [None]: the selected object has no [getAccentHue]. *)
Definition getThemeAccentHue (w : World) : option JS.IntNumber :=
  match theme_selected (app w) with
  | TheTheme k =>
      Some (Theme.getAccentHue (hueKey (theme_at k (theme_themes (app w)))) (env w))
  | NoTheme | Inherited _ => None
  end.

Definition getZoomFactor (w : World) : float := zoom_factor (app w).

Definition zoomIn (w : World) : World :=
  if (zoom_factor (app w) <? zoom_max (app w))%float then
    let f := (zoom_factor (app w) + zoom_step (app w))%float in
    {| env := setItem (zoom_key (app w)) (JS.float_toString f) (env w);
       waves := waves w;
       app := set_zoom_factor f (app w) |}
  else w.

Definition zoomOut (w : World) : World :=
  if (zoom_min (app w) <? zoom_factor (app w))%float then
    let f := (zoom_factor (app w) - zoom_step (app w))%float in
    {| env := setItem (zoom_key (app w)) (JS.float_toString f) (env w);
       waves := waves w;
       app := set_zoom_factor f (app w) |}
  else w.

End AppTheme.

(** ** The event loop *)

(** Runs one timer callback.  An exception inside it is reported and
    changes nothing else. *)
Definition run_callback (c : Callback) (w : World) : World :=
  let result :=
    match c with
    | FadeStep sf => WavesEffect.fade_step sf (waves w) (env w)
    | DestroyAndNotify p => WavesEffect.destroy_and_notify p (waves w) (env w)
    end in
  match result with
  | Some (this, e) => {| env := e; waves := this; app := app w |}
  | None => {| env := log UncaughtTypeError (env w); waves := waves w; app := app w |}
  end.

(** One turn of the event loop: the next timer, if there is one, is taken
    off the queue and run at its due time. *)
Definition tick (w : World) : World :=
  match pop_timer (timers (env w)) with
  | None => w
  | Some (t, rest) =>
      run_callback (callback t)
        {| env := {| localStorage := localStorage (env w);
                     rootStyle := rootStyle (env w);
                     timers := rest;
                     clock := Z.max (clock (env w)) (due t);
                     created := created (env w);
                     trace := trace (env w) |};
           waves := waves w; app := app w |}
  end.

(** ** Runs of the page *)

(** What can happen to the page after it loaded: a call of one of the
    methods of [AppTheme] that change state, or a turn of the event loop. *)
Inductive Action :=
| CallSetTheme (mode : string)
| CallSetThemeAccentHue (hue : JS.IntNumber)
| CallDestroyEffect (postAction : PostAction)
| CallZoomIn
| CallZoomOut
| TimerFires.

(** The state a call leaves behind; after an exception the page lives on. *)
Definition state_of (c : Completion) : World :=
  match c with
  | Normal w => w
  | Throw w => w
  end.

Definition perform (a : Action) (w : World) : World :=
  match a with
  | CallSetTheme mode => state_of (AppTheme.setTheme mode w)
  | CallSetThemeAccentHue hue => state_of (AppTheme.setThemeAccentHue hue w)
  | CallDestroyEffect p => state_of (AppTheme.destroyEffect p w)
  | CallZoomIn => AppTheme.zoomIn w
  | CallZoomOut => AppTheme.zoomOut w
  | TimerFires => tick w
  end.

Definition run (actions : list Action) (w : World) : World :=
  fold_left (fun w a => perform a w) actions w.

(** The worlds the page can be in: constructed at page load over some
    storage, and then any run. *)
Inductive Reachable : World -> Prop :=
| reach_new storage w :
    AppTheme.new (page_load storage) = Some w -> Reachable w
| reach_step a w :
    Reachable w -> Reachable (perform a w).

Definition is_timer (a : Action) : bool :=
  match a with
  | TimerFires => true
  | _ => false
  end.

(** How many turns of the event loop a run has. *)
Fixpoint turns (actions : list Action) : nat :=
  match actions with
  | [] => 0
  | a :: rest => ((if is_timer a then 1 else 0) + turns rest)%nat
  end.

(** The trace as the fade sees it. *)
Inductive Mark :=
| Faded                      (* a fade step wrote the opacity *)
| Disposed                   (* effect.destroy() *)
| Called (p : PostAction).   (* postAction() *)

Definition mark (ev : Event) : option Mark :=
  match ev with
  | OpacitySet _ _ => Some Faded
  | EffectDestroyed _ => Some Disposed
  | PostActionCalled p => Some (Called p)
  | _ => None
  end.

Definition marks (tr : list Event) : list Mark := omap mark tr.

(* ===================================================================== *)
(** * Notions the properties are stated with *)
(* ===================================================================== *)

(** ** Colours and hues *)

(** The colour string as the code builds it: a space follows each comma. *)
Definition hsl_string (h : JS.IntNumber) : string :=
  "hsl(" +:+ JS.toString h +:+ ", 100%, 60%)".

(** The round trip of claim C4 for one theme class [new_theme]: after
    [setAccentHue(h)], a theme built anew over the storage has the hue [h]
    and the colour string computed when setting. *)
Definition hue_round_trips (new_theme : Env -> Theme) (h : Z) (e : Env) : Prop :=
  let set := Theme.setAccentHue (JS.Int h) (new_theme e) e in
  let reloaded := new_theme (page_load (localStorage (snd set))) in
  hue (themeAccent reloaded) = JS.Int h
  /\ value (accent (themeAccent reloaded))
     = value (accent (themeAccent (fst set))).

(** ** Start-up and zoom *)

(** The zoom factor the constructor takes from the storage. *)
Definition loaded_zoom (storage : gmap string string) : float :=
  if JS.truthy (storage !! "zoom")
  then JS.parseFloat (default "" (storage !! "zoom"))
  else 1%float.

(** The zoom factors the page goes through from the default factor 1. *)
Definition zoom_levels : list float :=
  [1; 1.1; 1.2000000000000002; 1.3000000000000003; 1.4000000000000004;
   1.5000000000000004; 1.6000000000000005; 1.7000000000000006;
   1.8000000000000007; 1.9000000000000008; 2.000000000000001]%float.

(** The zoom constants are the ones of the source and the factor is one
    of [zoom_levels]. *)
Definition zoom_invariant (w : World) : Prop :=
  zoom_step (app w) = 0.1%float
  /\ zoom_min (app w) = 1%float
  /\ zoom_max (app w) = 2%float
  /\ In (zoom_factor (app w)) zoom_levels.

(** ** Traces and timers *)

(** The style variables [setStyleProperties] applies, in order. *)
Definition style_events (t : Theme) : list Event :=
  [StyleSet (property (iconFilter t)) (value (iconFilter t));
   StyleSet (property (accent (themeAccent t))) (value (accent (themeAccent t)));
   StyleSet (property (fontColor t)) (value (fontColor t));
   StyleSet (property (baseColor t)) (value (baseColor t));
   StyleSet (property (darkAccent t)) (value (darkAccent t));
   StyleSet (property (midAccent t)) (value (midAccent t));
   StyleSet (property (brightAccent t)) (value (brightAccent t))].

Definition with_timers (ts : list Timer) (e : Env) : Env :=
  {| localStorage := localStorage e; rootStyle := rootStyle e;
     timers := ts; clock := clock e; created := created e;
     trace := trace e |}.

(** The timers one call of [WavesEffect.destroyEffect] registers at time
    [now], in registration order: the fade steps, then the last timer. *)
Definition fade_timers (now : Z) (this : WavesEffect) (p : PostAction)
  : list Timer :=
  map (fun i => {| due := now + effectDelay this * Z.of_nat i;
                   callback := FadeStep (WavesEffect.subtractionFactor this) |})
      (seq 1 (Z.to_nat (effectInterval this)))
  ++ [{| due := now + effectDelay this * effectInterval this;
         callback := DestroyAndNotify p |}].

(** What the fade has done after [n] turns of the event loop: a fade step
    in each of the first ten turns, and in the eleventh the disposal of the
    effect object followed by the one call of [postAction]. *)
Definition fade_view (n : nat) (p : PostAction) : list Mark :=
  (repeat Faded (Nat.min n 10)
   ++ (if (11 <=? n)%nat then [Disposed; Called p] else [])).

(** ** The text of the opacity *)

(** The text [style.opacity] holds, for a style object that gives back an
    assigned number as [serialize] says and keeps its text when the
    assignment is dropped. *)
Fixpoint opacity_text (serialize : float -> option string) (o : Opacity)
  : string :=
  match o with
  | OpacityEmpty => ""
  | Assigned x => default "" (serialize x)
  | FadedFrom o sf =>
      let text := opacity_text serialize o in
      default text (serialize (WavesEffect.faded_value sf text))
  end.

(** The opacity after [n] fade steps of the wrapper [this], from the
    opacity [o]. *)
Definition fade (this : WavesEffect) (n : nat) (o : Opacity) : Opacity :=
  Nat.iter n (WavesEffect.faded (WavesEffect.subtractionFactor this)) o.


(** ** Invariants *)

(** While [effect.selected] is in place no fade has been started, the
    effect object exists, its opacity was never assigned, and it is tinted
    for the current theme. *)
Definition effect_invariant (w : World) : Prop :=
  effectDelay (waves w) = 50
  /\ effectInterval (waves w) = 10
  /\ effect_key (app w) = "mode"
  /\ (effect_selected (app w) = true ->
      timers (env w) = []
      /\ exists v, effect (waves w) = Some v
           /\ opacity v = OpacityEmpty
           /\ (vanta_id v < created (env w))%nat
           /\ forall k, themes_get (effect_mode (app w)) = TheTheme k ->
                vanta_color v
                = backgroundEffectColor (theme_at k (theme_themes (app w)))).

(** The page [n] turns of the event loop after [destroyEffect p] was
    called at time [now] on the wrapper [this], in a world whose trace was
    [base]. *)
Definition fading (now : Z) (this : WavesEffect) (p : PostAction)
  (base : list Event) (n : nat) (w : World) : Prop :=
  effect_selected (app w) = false
  /\ timers (env w) = skipn n (fade_timers now this p)
  /\ ((n <= 10)%nat ->
      exists v, effect (waves w) = Some v
                /\ opacity v = fade this n OpacityEmpty)
  /\ exists new, trace (env w) = (base ++ new)
                 /\ marks new = fade_view n p.

(** ** Themes, styles and storage across runs *)

(** The style properties of a theme, in the order [setStyleProperties]
    applies them. *)
Definition theme_properties (t : Theme) : list StyleProperty :=
  [iconFilter t; accent (themeAccent t); fontColor t; baseColor t;
   darkAccent t; midAccent t; brightAccent t].

(** The root element's style holds every variable of the theme [t]. *)
Definition shows_theme (t : Theme) (e : Env) : Prop :=
  List.Forall (fun p => rootStyle e !! property p = Some (value p))
    (theme_properties t).

(** The registry whose accent hues are [hl] and [hd]; everything else in
    a theme is a constant of its class. *)
Definition themes_with (hl hd : JS.IntNumber) : Themes :=
  {| themes_light :=
       set_themeAccent (ThemeAccentProperty.new "--theme-accent" hl)
         (LightTheme (page_load ∅));
     themes_dark :=
       set_themeAccent (ThemeAccentProperty.new "--theme-accent" hd)
         (DarkTheme (page_load ∅)) |}.

(** The keys and the themes of [AppTheme] are the ones it was constructed
    with, accent hues apart. *)
Definition constants_invariant (w : World) : Prop :=
  effect_key (app w) = "mode"
  /\ zoom_key (app w) = "zoom"
  /\ exists hl hd, theme_themes (app w) = themes_with hl hd.

(** The storage keys of the module. *)
Definition storage_keys : list string :=
  ["mode"; "zoom"; "light-accent-hue"; "dark-accent-hue"].

(** The mode the constructor settles on over [storage]. *)
Definition loaded_mode (storage : gmap string string) : string :=
  if JS.truthy (storage !! "mode") then default "" (storage !! "mode")
  else "light".

(** ** Effect objects alive *)

(** The effect objects alive after one more event, newest first.  [None]:
    an object was created under an identity in use, or an object that was
    not alive was destroyed. *)
Definition live_step (alive : option (list nat)) (ev : Event)
  : option (list nat) :=
  match alive with
  | None => None
  | Some ids =>
      match ev with
      | EffectCreated id _ =>
          if existsb (Nat.eqb id) ids then None else Some (id :: ids)
      | EffectDestroyed id =>
          if existsb (Nat.eqb id) ids
          then Some (filter (fun x => negb (Nat.eqb id x)) ids)
          else None
      | _ => Some ids
      end
  end.

Definition live_effects (tr : list Event) : option (list nat) :=
  fold_left live_step tr (Some []).

(** The effect object the wrapper holds, as a list of identities. *)
Definition held_effect (this : WavesEffect) : list nat :=
  match effect this with
  | Some v => [vanta_id v]
  | None => []
  end.

(** Splits [effect_invariant] into its three constants and the part
    that holds while the effect is active. *)
Ltac split_invariant :=
  unfold effect_invariant; cbn [state_of];
  split; [|split; [|split]]; [try assumption ..|].

(* ===================================================================== *)
(** * Properties *)
(* ===================================================================== *)

(** ** The runtime on examples *)

Example to_Number_examples :
  map JS.to_Number [0; 120; -7; 2 ^ 53 + 1; 2 ^ 53 + 3; - (2 ^ 60 + 200);
                    10 ^ 21 - 1; 2 ^ 1024 - 2 ^ 970 - 1; 2 ^ 1024 - 2 ^ 970]
  = [JS.Int 0; JS.Int 120; JS.Int (-7); JS.Int (2 ^ 53); JS.Int (2 ^ 53 + 4);
     JS.Int (- (2 ^ 60 + 256)); JS.Int (10 ^ 21); JS.Int (2 ^ 1024 - 2 ^ 971);
     JS.Infinity false].
Proof. vm_compute. reflexivity. Qed.

(** [to_Number] is the rounding of the binary64 specification. *)
Example to_Number_is_binary64_rounding :
  forallb (fun m =>
             match JS.decimal_to_spec false m 0, JS.to_Number m with
             | S754_finite false mantissa e, JS.Int z =>
                 if 0 <=? e then z =? Zpos mantissa * 2 ^ e
                 else z * 2 ^ (- e) =? Zpos mantissa
             | S754_infinity false, JS.Infinity false => true
             | _, _ => false
             end)
    [1; 120; 2 ^ 53 - 1; 2 ^ 53 + 1; 2 ^ 53 + 3; 2 ^ 54 + 2; 2 ^ 54 + 6;
     2 ^ 60 + 128; 2 ^ 60 + 129; 2 ^ 60 + 384; 10 ^ 21 - 1; 10 ^ 21;
     123456789012345678901234567890; 2 ^ 1024 - 2 ^ 970 - 1;
     2 ^ 1024 - 2 ^ 970; 10 ^ 400]
  = true.
Proof. vm_compute. reflexivity. Qed.

Example toString_examples :
  map JS.toString [JS.Int 0; JS.Int 120; JS.Int (-7); JS.Int 1200;
                   JS.Int (2 ^ 53); JS.Int (2 ^ 60); JS.Int (- (2 ^ 69));
                   JS.Int (10 ^ 21); JS.Int (12 * 10 ^ 21); JS.Int (2 ^ 70);
                   JS.NaN; JS.Infinity false; JS.Infinity true]
  = ["0"; "120"; "-7"; "1200"; "9007199254740992"; "1152921504606847000";
     "-590295810358705700000"; "1e+21"; "1.2e+22"; "1.1805916207174113e+21";
     "NaN"; "Infinity"; "-Infinity"].
Proof. vm_compute. reflexivity. Qed.

Example parseInt_examples :
  map JS.parseInt ["120"; "  -42px"; "+7"; "007"; "1e+21"; "12.9"; "abc"; ""; "-";
                   "9007199254740993"; "1152921504606847000"; "Infinity"]
  = [JS.Int 120; JS.Int (-42); JS.Int 7; JS.Int 7; JS.Int 1; JS.Int 12;
     JS.NaN; JS.NaN; JS.NaN; JS.Int (2 ^ 53); JS.Int (2 ^ 60); JS.NaN].
Proof. vm_compute. reflexivity. Qed.

Example float_toString_examples :
  map JS.float_toString
    [1; 1.1; 1.1 + 0.1; 0.1 + 0.2; 2.000000000000001; 0.000001; 1e-7; 1e21;
     123456789012345680000; 5e-324; -1.25; 100]%float
  = ["1"; "1.1"; "1.2000000000000002"; "0.30000000000000004";
     "2.000000000000001"; "0.000001"; "1e-7"; "1e+21";
     "123456789012345680000"; "5e-324"; "-1.25"; "100"].
Proof. vm_compute. reflexivity. Qed.

Example parseFloat_examples :
  map JS.parseFloat ["1.5"; " 1.95abc"; "1.2000000000000002"; ".5"; "5.";
                     "-2e-3"; "1e5x"; "2.000000000000001"]
  = [1.5; 1.95; 1.1 + 0.1; 0.5; 5; -0.002; 100000; 2.000000000000001]%float.
Proof. vm_compute. reflexivity. Qed.

Example parseFloat_NaN :
  map (fun s => is_nan (JS.parseFloat s)) ["abc"; ""; "."; "e5"; "-"]
  = [true; true; true; true; true].
Proof. vm_compute. reflexivity. Qed.

(** ** Numerals *)

Lemma is_digit_digit_char d : 0 <= d < 10 -> JS.is_digit (JS.digit_char d) = true.
Proof.
  intros H.
  assert (Hd : d = 0 \/ d = 1 \/ d = 2 \/ d = 3 \/ d = 4 \/ d = 5 \/ d = 6
               \/ d = 7 \/ d = 8 \/ d = 9) by lia.
  repeat (destruct Hd as [-> | Hd]; [reflexivity |]). subst. reflexivity.
Qed.

Lemma digit_value_digit_char d : 0 <= d < 10 -> JS.digit_value (JS.digit_char d) = d.
Proof.
  intros H.
  assert (Hd : d = 0 \/ d = 1 \/ d = 2 \/ d = 3 \/ d = 4 \/ d = 5 \/ d = 6
               \/ d = 7 \/ d = 8 \/ d = 9) by lia.
  repeat (destruct Hd as [-> | Hd]; [reflexivity |]). subst. reflexivity.
Qed.

Lemma decimal_digits_S fuel n acc :
  JS.decimal_digits (S fuel) n acc
  = if n / 10 =? 0 then String (JS.digit_char (n mod 10)) acc
    else JS.decimal_digits fuel (n / 10) (String (JS.digit_char (n mod 10)) acc).
Proof. reflexivity. Qed.

(** Reading the digits of [n] gives [n] back, whatever follows them. *)
Lemma leading_digits_decimal_digits fuel : forall n acc,
  0 <= n < 2 ^ Z.of_nat (S fuel) ->
  JS.leading_digits (JS.decimal_digits (S fuel) n acc) None
  = JS.leading_digits acc (Some n).
Proof.
  induction fuel as [|fuel IH]; intros n acc Hn;
    assert (Hmod : 0 <= n mod 10 < 10) by (apply Z.mod_pos_bound; lia);
    assert (Hdiv : n = 10 * (n / 10) + n mod 10) by (apply Z.div_mod; lia);
    assert (H0 : 0 <= n / 10) by (apply Z.div_pos; lia);
    rewrite decimal_digits_S; destruct (n / 10 =? 0) eqn:E.
  - apply Z.eqb_eq in E.
    cbn [JS.leading_digits]. rewrite is_digit_digit_char by lia.
    rewrite digit_value_digit_char by lia. cbn [default from_option]; unfold id.
    do 2 f_equal; lia.
  - apply Z.eqb_neq in E. change (2 ^ Z.of_nat 1) with 2 in Hn.
    assert (n / 10 = 0) by (apply Z.div_small; lia). lia.
  - apply Z.eqb_eq in E.
    cbn [JS.leading_digits]. rewrite is_digit_digit_char by lia.
    rewrite digit_value_digit_char by lia. cbn [default from_option]; unfold id.
    do 2 f_equal; lia.
  - apply Z.eqb_neq in E.
    rewrite IH.
    + cbn [JS.leading_digits]. rewrite is_digit_digit_char by lia.
      rewrite digit_value_digit_char by lia. cbn [default from_option]; unfold id.
      do 2 f_equal; lia.
    + split; [lia|].
      rewrite (Nat2Z.inj_succ (S fuel)), Z.pow_succ_r in Hn by lia.
      apply Z.div_lt_upper_bound; lia.
Qed.

(** A numeral starts with a digit. *)
Lemma decimal_digits_head fuel : forall n acc,
  0 <= n ->
  exists c rest, JS.decimal_digits (S fuel) n acc = String c rest
                 /\ JS.is_digit c = true.
Proof.
  induction fuel as [|fuel IH]; intros n acc Hn;
    assert (Hmod : 0 <= n mod 10 < 10) by (apply Z.mod_pos_bound; lia);
    rewrite decimal_digits_S; destruct (n / 10 =? 0) eqn:E;
    try (eexists _, _; split; [reflexivity | apply is_digit_digit_char; lia]).
  apply IH. apply Z.div_pos; lia.
Qed.

(** A digit is neither white space nor a sign. *)
Lemma digit_not_space_or_sign c :
  JS.is_digit c = true ->
  JS.is_whitespace c = false /\ c <> "-"%char /\ c <> "+"%char.
Proof.
  destruct c as [[] [] [] [] [] [] [] []]; vm_compute; intros H;
    try discriminate H; repeat split; discriminate.
Qed.

Lemma parseInt_digits c rest :
  JS.is_digit c = true ->
  JS.parseInt (String c rest)
  = match JS.leading_digits (String c rest) None with
    | None => JS.NaN
    | Some m => JS.to_Number (1 * m)
    end.
Proof.
  intros Hc. destruct (digit_not_space_or_sign c Hc) as (Hw & Hm & Hp).
  unfold JS.parseInt. cbn [JS.skip_whitespace]. rewrite Hw.
  destruct c as [[] [] [] [] [] [] [] []]; try reflexivity;
    exfalso; (apply Hm; reflexivity) || (apply Hp; reflexivity).
Qed.

Lemma parseInt_minus s :
  JS.parseInt ("-" +:+ s)
  = match JS.leading_digits s None with
    | None => JS.NaN
    | Some m => JS.to_Number (-1 * m)
    end.
Proof. reflexivity. Qed.

Lemma append_assoc (a b c : string) : (a +:+ b) +:+ c = a +:+ (b +:+ c).
Proof.
  induction a as [|x a IH]; [reflexivity|].
  change (String x ((a +:+ b) +:+ c) = String x (a +:+ (b +:+ c))).
  now rewrite IH.
Qed.

(** The digits pushed in front of [acc] are the digits, then [acc]. *)
Lemma decimal_digits_app fuel : forall n acc,
  JS.decimal_digits fuel n acc = JS.decimal_digits fuel n "" +:+ acc.
Proof.
  induction fuel as [|fuel IH]; intros n acc; [reflexivity|].
  rewrite !decimal_digits_S. destruct (n / 10 =? 0); [reflexivity|].
  rewrite (IH (n / 10) (String (JS.digit_char (n mod 10)) acc)).
  rewrite (IH (n / 10) (String (JS.digit_char (n mod 10)) "")).
  rewrite append_assoc. reflexivity.
Qed.

(** Each zero after the digits multiplies what was read by ten. *)
Lemma leading_digits_zeros q : forall s,
  JS.leading_digits (JS.zeros q) (Some s) = Some (s * 10 ^ Z.of_nat q).
Proof.
  induction q as [|q IH]; intros s.
  - cbn. f_equal. lia.
  - cbn [JS.zeros JS.leading_digits].
    change (JS.is_digit "0") with true. cbn iota.
    rewrite IH. cbn [default from_option]; unfold id.
    change (JS.digit_value "0") with 0.
    rewrite Nat2Z.inj_succ, Z.pow_succ_r by lia. f_equal. lia.
Qed.

Lemma leading_digits_decimal_zeros s q :
  0 <= s ->
  JS.leading_digits (JS.decimal s +:+ JS.zeros q) None
  = Some (s * 10 ^ Z.of_nat q).
Proof.
  intros Hs. unfold JS.decimal.
  rewrite <- decimal_digits_app, leading_digits_decimal_digits.
  - apply leading_digits_zeros.
  - split; [lia|].
    destruct (Z.eq_dec s 0) as [->|Hnz]; [reflexivity|].
    rewrite Nat2Z.inj_succ, Z2Nat.id by apply Z.log2_nonneg.
    apply Z.log2_spec. lia.
Qed.

(** ** Integers as Numbers *)

(** The Numbers are closed under negation, and so is reading them. *)
Lemma to_Number_opp m z :
  JS.to_Number m = JS.Int z -> JS.to_Number (- m) = JS.Int (- z).
Proof.
  unfold JS.to_Number. rewrite Z.abs_opp, Z.sgn_opp.
  destruct (2 ^ 1024 <=? JS.nearest_binary64 (Z.abs m)); [discriminate|].
  intros [= <-]. f_equal. lia.
Qed.

Lemma is_Number_opp z : JS.is_Number z -> JS.is_Number (- z).
Proof. apply to_Number_opp. Qed.

(** Every integer of at most 53 bits is a Number. *)
Lemma is_Number_small z : Z.abs z < 2 ^ 53 -> JS.is_Number z.
Proof.
  intros Hz. unfold JS.is_Number, JS.to_Number, JS.nearest_binary64.
  assert (Hl : Z.log2 (Z.abs z) - 52 <= 0).
  { destruct (Z.eq_dec (Z.abs z) 0) as [->|Hnz]; [cbn; lia|].
    assert (Z.log2 (Z.abs z) < 53) by (apply Z.log2_lt_pow2; lia). lia. }
  replace (Z.log2 (Z.abs z) - 52 <=? 0) with true
    by (symmetry; apply Z.leb_le; exact Hl).
  replace (2 ^ 1024 <=? Z.abs z) with false.
  - f_equal. rewrite Z.mul_comm. apply Z.abs_sgn.
  - symmetry. apply Z.leb_gt.
    assert (2 ^ 53 < 2 ^ 1024) by (apply Z.pow_lt_mono_r; lia). lia.
Qed.

(** What [shortest_integer] picks reads back as the Number it was picked
    for. *)
Lemma shortest_integer_reads_back z :
  JS.is_Number z -> 0 < z -> forall q s q',
  JS.shortest_integer z q = (s, q') ->
  0 <= s /\ JS.to_Number (s * 10 ^ Z.of_nat q') = JS.Int z.
Proof.
  intros Hz Hpos q. induction q as [|q IH]; intros s q' H.
  - cbn in H. injection H as <- <-. split; [lia|].
    rewrite Z.mul_1_r. exact Hz.
  - cbn [JS.shortest_integer] in H.
    assert (Hp : 0 < 10 ^ Z.of_nat (S q)) by (apply Z.pow_pos_nonneg; lia).
    assert (Hlo : 0 <= z / 10 ^ Z.of_nat (S q)) by (apply Z.div_pos; lia).
    assert (Hr : forall c, JS.reads_back z c = true -> JS.to_Number c = JS.Int z).
    { intros c. unfold JS.reads_back.
      destruct (JS.to_Number c) as [| |z']; try discriminate.
      intros E. apply Z.eqb_eq in E. now subst. }
    destruct (JS.reads_back z (z / 10 ^ Z.of_nat (S q) * 10 ^ Z.of_nat (S q)))
      eqn:Elo;
      destruct (JS.reads_back z ((z / 10 ^ Z.of_nat (S q) + 1) * 10 ^ Z.of_nat (S q)))
        eqn:Ehi.
    + destruct (JS.nearer _ _ _ _); injection H as <- <-;
        (split; [lia | now apply Hr]).
    + injection H as <- <-. split; [lia | now apply Hr].
    + injection H as <- <-. split; [lia | now apply Hr].
    + now apply IH.
Qed.

(** Below [10^21] the numeral of a positive Number reads back as it. *)
Lemma positive_toString_reads_back z :
  JS.is_Number z -> 0 < z < 10 ^ 21 ->
  JS.leading_digits (JS.positive_toString z) None <> None
  /\ (forall m, JS.leading_digits (JS.positive_toString z) None = Some m ->
       JS.to_Number m = JS.Int z)
  /\ exists c r, JS.positive_toString z = String c r /\ JS.is_digit c = true.
Proof.
  intros Hz [Hpos Hlt]. unfold JS.positive_toString.
  destruct (JS.shortest_integer z (String.length (JS.decimal z) - 1))
    as [s q] eqn:E.
  destruct (shortest_integer_reads_back z Hz Hpos _ _ _ E) as [Hs Hback].
  replace (z <? 10 ^ 21) with true by (symmetry; apply Z.ltb_lt; lia).
  rewrite leading_digits_decimal_zeros by exact Hs.
  split; [discriminate|]. split.
  - intros m [= <-]. exact Hback.
  - unfold JS.decimal. rewrite <- decimal_digits_app.
    apply decimal_digits_head. exact Hs.
Qed.

(** Below [10^21] printing a Number and reading the numeral gives the
    Number back. *)
Lemma parseInt_toString h :
  JS.is_Number h -> Z.abs h < 10 ^ 21 ->
  JS.parseInt (JS.toString (JS.Int h)) = JS.Int h.
Proof.
  intros Hn Hh. unfold JS.toString.
  destruct (h =? 0) eqn:E0.
  - apply Z.eqb_eq in E0. subst. reflexivity.
  - apply Z.eqb_neq in E0. destruct (h <? 0) eqn:En.
    + apply Z.ltb_lt in En.
      destruct (positive_toString_reads_back (- h)) as (Hsome & Hback & _);
        [now apply is_Number_opp | lia |].
      rewrite parseInt_minus.
      destruct (JS.leading_digits (JS.positive_toString (- h)) None) as [m|];
        [|contradiction].
      replace (-1 * m) with (- m) by lia.
      rewrite (to_Number_opp m (- h)) by now apply Hback.
      f_equal. lia.
    + apply Z.ltb_ge in En.
      destruct (positive_toString_reads_back h) as (Hsome & Hback & c & r & Hd & Hc);
        [exact Hn | lia |].
      rewrite Hd in *. rewrite parseInt_digits by exact Hc.
      destruct (JS.leading_digits (String c r) None) as [m|];
        [|contradiction].
      rewrite Z.mul_1_l. now apply Hback.
Qed.

(** Below [10^21] the numeral of a Number is not the empty string. *)
Lemma toString_truthy h :
  JS.is_Number h -> Z.abs h < 10 ^ 21 ->
  JS.truthy (Some (JS.toString (JS.Int h))) = true.
Proof.
  intros Hn Hh. unfold JS.toString.
  destruct (h =? 0) eqn:E0; [reflexivity|].
  apply Z.eqb_neq in E0.
  destruct (h <? 0) eqn:En; [reflexivity|].
  apply Z.ltb_ge in En.
  destruct (positive_toString_reads_back h) as (_ & _ & c & r & -> & _);
    [exact Hn | lia | reflexivity].
Qed.

(** ** The storage under the writes of the module *)

Lemma getItem_page_load key storage :
  getItem key (page_load storage) = storage !! key.
Proof. reflexivity. Qed.

Lemma getItem_setItem key v e : getItem key (setItem key v e) = Some v.
Proof. unfold getItem. cbn. apply lookup_insert_eq. Qed.

Lemma localStorage_setStyleProperties t e :
  localStorage (Theme.setStyleProperties t e) = localStorage e.
Proof. reflexivity. Qed.

Lemma localStorage_createEffect props this e :
  localStorage (snd (WavesEffect.createEffect props this e)) = localStorage e.
Proof. reflexivity. Qed.



(** ** The accent colour *)

Lemma hsl_100_60 h : ThemeAccentProperty.hsl h 100 60 = hsl_string h.
Proof. reflexivity. Qed.

(** Updates never touch saturation and lightness. *)
Lemma updates_keep_constants hs : forall a,
  saturation (fold_left (fun a x => ThemeAccentProperty.update x a) hs a)
  = saturation a
  /\ lightness (fold_left (fun a x => ThemeAccentProperty.update x a) hs a)
     = lightness a.
Proof.
  induction hs as [|x hs IH]; intros a; [split; reflexivity|].
  cbn [fold_left]. destruct (IH (ThemeAccentProperty.update x a)) as [-> ->].
  split; reflexivity.
Qed.

(** C5, as stated, fails: for hue 120 the computed colour is
    ["hsl(120, 100%, 60%)"], with a space after each comma, which is not the
    string ["hsl(120,100%,60%)"] of the claim. *)
Lemma accent_value_has_spaces :
  value (accent (ThemeAccentProperty.new "--theme-accent" (JS.Int 120)))
  = "hsl(120, 100%, 60%)"
  /\ value (accent (ThemeAccentProperty.new "--theme-accent" (JS.Int 120)))
     <> "hsl(120,100%,60%)".
Proof. split; [reflexivity | discriminate]. Qed.

(** C5, amended: for every hue [h] the computed accent colour, after
    construction with [h] and after [update(h)] on a property that was
    constructed and updated any number of times, is exactly
    ["hsl(" + h + ", 100%, 60%)"], one space after each comma. *)
Theorem accent_value_is_hsl (property : string) (h0 h : JS.IntNumber)
  (hs : list JS.IntNumber) :
  value (accent (ThemeAccentProperty.new property h)) = hsl_string h
  /\ value (accent
       (ThemeAccentProperty.update h
          (fold_left (fun a x => ThemeAccentProperty.update x a) hs
             (ThemeAccentProperty.new property h0))))
     = hsl_string h.
Proof.
  split; [reflexivity|].
  destruct (updates_keep_constants hs (ThemeAccentProperty.new property h0))
    as [Hs Hl].
  cbn [ThemeAccentProperty.update accent value]. rewrite Hs, Hl.
  apply hsl_100_60.
Qed.

(** ** The accent hue across a reload *)

(** Storing a hue below [10^21] and building the accent anew from the
    storage gives the same hue and colour, for a theme with any key. *)
Lemma hue_survives_reload (h : Z) (t : Theme) (e : Env) :
  JS.is_Number h ->
  Z.abs h < 10 ^ 21 ->
  Theme.getAccentHue (hueKey t)
    (page_load (localStorage (snd (Theme.setAccentHue (JS.Int h) t e))))
  = JS.Int h.
Proof.
  intros Hn Hh. unfold Theme.getAccentHue.
  rewrite getItem_page_load.
  change (localStorage (snd (Theme.setAccentHue (JS.Int h) t e)))
    with (<[hueKey t := JS.toString (JS.Int h)]> (localStorage e)).
  rewrite lookup_insert_eq, toString_truthy by assumption.
  now apply parseInt_toString.
Qed.

(** C4, as stated, fails: the hue [10^21] is an integer and a Number, it
    is stored as ["1e+21"], and [parseInt] reads that back as [1]; the
    colour computed when setting is ["hsl(1e+21, 100%, 60%)"], the one after
    the reload ["hsl(1, 100%, 60%)"]. *)
Lemma accent_hue_1e21_lost :
  let set := Theme.setAccentHue (JS.Int (10 ^ 21))
               (LightTheme (page_load ∅)) (page_load ∅) in
  let reloaded := LightTheme (page_load (localStorage (snd set))) in
  JS.is_Number (10 ^ 21)
  /\ localStorage (snd set) !! "light-accent-hue" = Some "1e+21"
  /\ value (accent (themeAccent (fst set))) = "hsl(1e+21, 100%, 60%)"
  /\ hue (themeAccent reloaded) = JS.Int 1
  /\ value (accent (themeAccent reloaded)) = "hsl(1, 100%, 60%)".
Proof. vm_compute. repeat split; reflexivity. Qed.

(** C4, amended: for every integer hue [h] (an integer that is a Number)
    with [|h| < 10^21], the range in which [toString] gives a plain decimal
    numeral, [setAccentHue(h)] followed by a reload over the same storage,
    which builds the theme and its accent anew from [getAccentHue], gives
    the hue [h] and the colour string computed when setting; for the light
    and for the dark theme. *)
Theorem accent_hue_round_trip (h : Z) (e : Env) :
  JS.is_Number h ->
  Z.abs h < 10 ^ 21 ->
  hue_round_trips LightTheme h e /\ hue_round_trips DarkTheme h e.
Proof.
  intros Hn Hh.
  pose proof (hue_survives_reload h (LightTheme e) e Hn Hh) as Hl.
  pose proof (hue_survives_reload h (DarkTheme e) e Hn Hh) as Hd.
  split; unfold hue_round_trips; cbv zeta.
  - change (hue (themeAccent (LightTheme
              (page_load (localStorage
                 (snd (Theme.setAccentHue (JS.Int h) (LightTheme e) e)))))))
      with (Theme.getAccentHue (hueKey (LightTheme e))
              (page_load (localStorage
                 (snd (Theme.setAccentHue (JS.Int h) (LightTheme e) e))))).
    split; [exact Hl|].
    change (value (accent (themeAccent (LightTheme
              (page_load (localStorage
                 (snd (Theme.setAccentHue (JS.Int h) (LightTheme e) e))))))))
      with (ThemeAccentProperty.hsl
              (Theme.getAccentHue (hueKey (LightTheme e))
                 (page_load (localStorage
                    (snd (Theme.setAccentHue (JS.Int h) (LightTheme e) e)))))
              100 60).
    rewrite Hl. reflexivity.
  - change (hue (themeAccent (DarkTheme
              (page_load (localStorage
                 (snd (Theme.setAccentHue (JS.Int h) (DarkTheme e) e)))))))
      with (Theme.getAccentHue (hueKey (DarkTheme e))
              (page_load (localStorage
                 (snd (Theme.setAccentHue (JS.Int h) (DarkTheme e) e))))).
    split; [exact Hd|].
    change (value (accent (themeAccent (DarkTheme
              (page_load (localStorage
                 (snd (Theme.setAccentHue (JS.Int h) (DarkTheme e) e))))))))
      with (ThemeAccentProperty.hsl
              (Theme.getAccentHue (hueKey (DarkTheme e))
                 (page_load (localStorage
                    (snd (Theme.setAccentHue (JS.Int h) (DarkTheme e) e)))))
              100 60).
    rewrite Hd. reflexivity.
Qed.

Lemma accent_hue_round_trip_witness :
  JS.is_Number (2 ^ 60)
  /\ Z.abs (2 ^ 60) < 10 ^ 21
  /\ hue_round_trips LightTheme (2 ^ 60) (page_load ∅)
  /\ hue_round_trips DarkTheme (2 ^ 60) (page_load ∅).
Proof.
  split; [reflexivity|]. split; [reflexivity|].
  apply accent_hue_round_trip; reflexivity.
Defined.

(** ** Start-up *)

(** The constructor succeeds exactly when the mode it settles on is an own
    key of the registry, and then the mode and the zoom factor are these. *)
Lemma new_with_mode storage mode k :
  (if JS.truthy (storage !! "mode") then default "" (storage !! "mode")
   else "light") = mode ->
  themes_get mode = TheTheme k ->
  exists w, AppTheme.new (page_load storage) = Some w
            /\ AppTheme.getMode w = mode
            /\ theme_selected (app w) = TheTheme k
            /\ AppTheme.isEffectActive w = true
            /\ AppTheme.getZoomFactor w = loaded_zoom storage.
Proof.
  intros Hmode Hk. unfold AppTheme.new.
  rewrite getItem_page_load. cbn [nth theme_keys]. rewrite Hmode, Hk.
  eexists. split; [reflexivity|]. repeat split.
Qed.

Lemma new_with_foreign_mode storage mode :
  (if JS.truthy (storage !! "mode") then default "" (storage !! "mode")
   else "light") = mode ->
  themes_get mode <> TheTheme light -> themes_get mode <> TheTheme dark ->
  AppTheme.new (page_load storage) = None.
Proof.
  intros Hmode Hl Hd. unfold AppTheme.new.
  rewrite getItem_page_load. cbn [nth theme_keys]. rewrite Hmode.
  destruct (themes_get mode) as [|[]|]; congruence.
Qed.

(** C7: constructed over a storage that holds neither a mode nor a zoom
    value (in particular over an empty storage), the [AppTheme] has the
    mode ["light"], which is the first key of the theme registry, and the
    zoom factor 1. *)
Theorem fresh_start_defaults (storage : gmap string string) :
  storage !! "mode" = None ->
  storage !! "zoom" = None ->
  exists w, AppTheme.new (page_load storage) = Some w
            /\ AppTheme.getMode w = "light"
            /\ head theme_keys = Some (AppTheme.getMode w)
            /\ AppTheme.getZoomFactor w = 1%float.
Proof.
  intros Hm Hz.
  destruct (new_with_mode storage "light" light) as (w & Hw & Hmode & _ & _ & Hzoom).
  - rewrite Hm. reflexivity.
  - reflexivity.
  - exists w. rewrite Hmode, Hzoom. unfold loaded_zoom. rewrite Hz.
    repeat split. exact Hw.
Qed.

Lemma fresh_start_defaults_witness :
  (∅ : gmap string string) !! "mode" = None
  /\ (∅ : gmap string string) !! "zoom" = None
  /\ exists w, AppTheme.new (page_load ∅) = Some w
               /\ AppTheme.getMode w = "light"
               /\ head theme_keys = Some (AppTheme.getMode w)
               /\ AppTheme.getZoomFactor w = 1%float.
Proof.
  split; [reflexivity|]. split; [reflexivity|].
  apply (fresh_start_defaults ∅); reflexivity.
Defined.

(** ** Missing and invalid persisted values *)




(** ** Zoom *)

(** At or beyond the upper bound [zoomIn] changes nothing, however often it
    is called; likewise [zoomOut] at or beyond the lower bound. *)
Lemma zoomIn_at_max (w : World) (n : nat) :
  (zoom_factor (app w) <? zoom_max (app w))%float = false ->
  Nat.iter n AppTheme.zoomIn w = w.
Proof.
  intros H. induction n as [|n IH]; [reflexivity|].
  rewrite Nat.iter_succ, IH. unfold AppTheme.zoomIn. rewrite H. reflexivity.
Qed.

Lemma zoomOut_at_min (w : World) (n : nat) :
  (zoom_min (app w) <? zoom_factor (app w))%float = false ->
  Nat.iter n AppTheme.zoomOut w = w.
Proof.
  intros H. induction n as [|n IH]; [reflexivity|].
  rewrite Nat.iter_succ, IH. unfold AppTheme.zoomOut. rewrite H. reflexivity.
Qed.

(** C2 fails on the code: on a page loaded over an empty storage (zoom
    factor 1, inside [1,2]) nine calls of [zoomIn] give 1.9000000000000008,
    which is below [max = 2], so the tenth call adds the step once more: the
    factor is then 2.000000000000001, above [max], and that is what is
    stored; further calls leave it there. *)
Lemma ten_zoomIn_pass_max :
  exists w, AppTheme.new (page_load ∅) = Some w
    /\ AppTheme.getZoomFactor w = 1%float
    /\ map (fun n => AppTheme.getZoomFactor (Nat.iter n AppTheme.zoomIn w))
         (seq 0 11) = zoom_levels
    /\ (zoom_max (app w)
        <? AppTheme.getZoomFactor (Nat.iter 10 AppTheme.zoomIn w))%float = true
    /\ localStorage (env (Nat.iter 10 AppTheme.zoomIn w)) !! "zoom"
       = Some "2.000000000000001"
    /\ Nat.iter 11 AppTheme.zoomIn w = Nat.iter 10 AppTheme.zoomIn w.
Proof.
  eexists. split; [reflexivity|]. vm_compute. repeat split; reflexivity.
Qed.

(** [zoom_levels] is closed under both steps. *)
Lemma zoom_levels_closed (f : float) :
  In f zoom_levels ->
  In (if f <? 2 then f + 0.1 else f)%float zoom_levels
  /\ In (if 1 <? f then f - 0.1 else f)%float zoom_levels.
Proof.
  intros H. cbn [In zoom_levels] in H.
  repeat (destruct H as [<- | H];
    [vm_compute; split; repeat (first [left; reflexivity | right])|]).
  contradiction.
Qed.

(** ** Switching the theme *)

(** A mode that is neither an own key of the registry nor a property of
    [Object.prototype] leaves everything as it was. *)
Lemma setTheme_undefined_mode (mode : string) (w : World) :
  themes_get mode = NoTheme -> AppTheme.setTheme mode w = Normal w.
Proof. intros H. unfold AppTheme.setTheme. rewrite H. reflexivity. Qed.

(** C6 fails on the code: ["constructor"] is not a key of the registry,
    but [themes["constructor"]] is the function every object literal
    inherits, which is truthy; [setTheme("constructor")] therefore
    overwrites the mode and the selected theme before the call of
    [setStyleProperties] on that function throws. *)
Lemma setTheme_inherited_key_changes_mode :
  exists w w', AppTheme.new (page_load ∅) = Some w
    /\ ~ In "constructor" theme_keys
    /\ AppTheme.setTheme "constructor" w = Throw w'
    /\ AppTheme.getMode w = "light"
    /\ theme_selected (app w) = TheTheme light
    /\ AppTheme.getMode w' = "constructor"
    /\ theme_selected (app w') = Inherited "constructor".
Proof.
  eexists _, _. split; [reflexivity|]. split; [|repeat split].
  intros [H|[H|[]]]; discriminate H.
Qed.

(** ** Timers *)

Lemma with_timers_same e : with_timers (timers e) e = e.
Proof. destruct e; reflexivity. Qed.

Lemma fold_setTimeout (c : Callback) (d : Z) (l : list nat) : forall e,
  fold_left (fun e i => setTimeout c (d * Z.of_nat i) e) l e
  = with_timers
      (timers e ++ map (fun i => {| due := clock e + d * Z.of_nat i;
                                    callback := c |}) l) e.
Proof.
  induction l as [|i l IH]; intros e.
  - cbn. rewrite app_nil_r. symmetry. apply with_timers_same.
  - cbn [fold_left map]. rewrite IH. unfold with_timers, setTimeout. cbn.
    rewrite <- app_assoc. reflexivity.
Qed.

Lemma destroyEffect_schedules p this e :
  WavesEffect.destroyEffect p this e
  = with_timers (timers e ++ fade_timers (clock e) this p) e.
Proof.
  unfold WavesEffect.destroyEffect, WavesEffect.schedule_fade, fade_timers.
  rewrite fold_setTimeout. unfold with_timers, setTimeout. cbn.
  rewrite <- app_assoc. reflexivity.
Qed.

Lemma pop_timer_None ts : pop_timer ts = None -> ts = [].
Proof.
  destruct ts as [|t rest]; [reflexivity|]. cbn.
  destruct (pop_timer rest) as [[t' rest']|]; [|discriminate].
  destruct (due t <=? due t'); discriminate.
Qed.

Lemma pop_timer_In ts : forall t rest,
  pop_timer ts = Some (t, rest) -> In t ts.
Proof.
  induction ts as [|t0 ts IH]; intros t rest H; [discriminate|].
  cbn in H. destruct (pop_timer ts) as [[t' rest']|] eqn:E.
  - destruct (due t0 <=? due t'); injection H as <- <-.
    + left. reflexivity.
    + right. eapply IH. reflexivity.
  - injection H as <- <-. left. reflexivity.
Qed.

(** The first timer runs next when no later one is due before it. *)
Lemma pop_timer_head t rest :
  Forall (fun t' => due t <= due t') rest ->
  pop_timer (t :: rest) = Some (t, rest).
Proof.
  intros Hall. cbn. destruct (pop_timer rest) as [[t' rest']|] eqn:E.
  - apply pop_timer_In in E. rewrite List.Forall_forall in Hall.
    apply Hall in E. apply Z.leb_le in E. rewrite E. reflexivity.
  - apply pop_timer_None in E. subst. reflexivity.
Qed.

(** ** destroyEffect, at the moment it returns *)

(** C9: when [AppTheme.destroyEffect(postAction)] returns, [isEffectActive()]
    is already false, although nothing of the fade has happened: the trace
    is unchanged (no fade step ran, the effect object was not destroyed,
    [postAction] was not called), the effect object is still in place, and
    all [effectInterval + 1] timers of the call are pending. *)
Theorem destroyEffect_clears_handle_at_once (p : PostAction) (w w' : World) :
  AppTheme.destroyEffect p w = Normal w' ->
  AppTheme.isEffectActive w' = false
  /\ trace (env w') = trace (env w)
  /\ effect (waves w') = effect (waves w)
  /\ timers (env w')
     = (timers (env w) ++ fade_timers (clock (env w)) (waves w) p)
  /\ length (fade_timers (clock (env w)) (waves w) p)
     = S (Z.to_nat (effectInterval (waves w))).
Proof.
  unfold AppTheme.destroyEffect, AppTheme.isEffectActive.
  destruct (effect_selected (app w)); [|discriminate].
  intros H. injection H as <-. cbn [env waves app].
  rewrite destroyEffect_schedules. repeat split.
  unfold fade_timers. rewrite length_app, length_map, length_seq. cbn. lia.
Qed.

Lemma destroyEffect_clears_handle_at_once_witness :
  exists w w', AppTheme.new (page_load ∅) = Some w
    /\ AppTheme.destroyEffect 1%nat w = Normal w'
    /\ AppTheme.isEffectActive w = true
    /\ AppTheme.isEffectActive w' = false
    /\ trace (env w') = trace (env w)
    /\ effect (waves w') = effect (waves w)
    /\ timers (env w')
       = (timers (env w) ++ fade_timers (clock (env w)) (waves w) 1%nat)
    /\ length (fade_timers (clock (env w)) (waves w) 1%nat)
       = S (Z.to_nat (effectInterval (waves w))).
Proof.
  eexists _, _. split; [reflexivity|]. split; [reflexivity|].
  split; [reflexivity|].
  eapply destroyEffect_clears_handle_at_once. reflexivity.
Defined.

(** ** What holds of every world the page can be in *)

Lemma color_or_default_Some c :
  WavesEffect.color_or_default {| color := Some c |} = c.
Proof.
  unfold WavesEffect.color_or_default. cbn.
  destruct (c =? 0) eqn:E; [|reflexivity].
  apply Z.eqb_eq in E. subst. reflexivity.
Qed.

Lemma backgroundEffectColor_set_theme_at k k' a ts :
  backgroundEffectColor
    (theme_at k' (set_theme_at k (set_themeAccent a (theme_at k ts)) ts))
  = backgroundEffectColor (theme_at k' ts).
Proof. destruct k, k'; reflexivity. Qed.

Lemma effect_invariant_new storage w :
  AppTheme.new (page_load storage) = Some w -> effect_invariant w.
Proof.
  unfold AppTheme.new.
  set (mode := if JS.truthy (getItem "mode" (page_load storage))
               then default "" (getItem "mode" (page_load storage))
               else nth 0 theme_keys "").
  destruct (themes_get mode) as [|k|] eqn:Hk; try discriminate.
  intros H. injection H as <-.
  unfold effect_invariant. cbn. repeat split.
  eexists. split; [reflexivity|]. split; [reflexivity|]. split; [cbn; lia|].
  intros k' Hk'. rewrite Hk in Hk'. injection Hk' as <-.
  cbn. apply color_or_default_Some.
Qed.

Lemma effect_invariant_setTheme mode w :
  effect_invariant w -> effect_invariant (state_of (AppTheme.setTheme mode w)).
Proof.
  intros (Hd & Hi & Hkey & Hact). unfold AppTheme.setTheme.
  destruct (themes_get mode) as [|k|name] eqn:Hk.
  - split_invariant. exact Hact.
  - cbn [effect_selected set_mode_selected].
    destruct (effect_selected (app w)) eqn:Hs.
    + destruct (Hact eq_refl) as (Ht & v & Hv & _ & Hid & _). rewrite Hv.
      split_invariant. cbn.
      intros _. split; [exact Ht|]. eexists. split; [reflexivity|].
      split; [reflexivity|]. split; [cbn; lia|].
      intros k'. rewrite Hk. intros H. injection H as <-.
      cbn. apply color_or_default_Some.
    + split_invariant. cbn. congruence.
  - split_invariant. cbn. intros Hs.
    destruct (Hact Hs) as (Ht & v & Hv & Ho & Hid & _).
    split; [exact Ht|]. exists v.
    repeat split; [exact Hv | exact Ho | exact Hid |].
    intros k'. rewrite Hk. discriminate.
Qed.

Lemma effect_invariant_setThemeAccentHue hue w :
  effect_invariant w ->
  effect_invariant (state_of (AppTheme.setThemeAccentHue hue w)).
Proof.
  intros (Hd & Hi & Hkey & Hact). unfold AppTheme.setThemeAccentHue.
  destruct (theme_selected (app w)) as [|k|name];
    try (split_invariant; exact Hact).
  split_invariant. cbn. intros Hs.
  destruct (Hact Hs) as (Ht & v & Hv & Ho & Hid & Hc).
  split; [exact Ht|]. exists v.
  repeat split; [exact Hv | exact Ho | exact Hid |].
  intros k' Hk'. rewrite backgroundEffectColor_set_theme_at. apply Hc, Hk'.
Qed.

Lemma effect_invariant_destroyEffect p w :
  effect_invariant w ->
  effect_invariant (state_of (AppTheme.destroyEffect p w)).
Proof.
  intros (Hd & Hi & Hkey & Hact). unfold AppTheme.destroyEffect.
  destruct (effect_selected (app w)) eqn:Hs.
  - split_invariant. cbn. discriminate.
  - split_invariant. congruence.
Qed.

Lemma effect_invariant_zoomIn w :
  effect_invariant w -> effect_invariant (AppTheme.zoomIn w).
Proof.
  intros (Hd & Hi & Hkey & Hact). unfold AppTheme.zoomIn.
  destruct (zoom_factor (app w) <? zoom_max (app w))%float;
    split_invariant; exact Hact.
Qed.

Lemma effect_invariant_zoomOut w :
  effect_invariant w -> effect_invariant (AppTheme.zoomOut w).
Proof.
  intros (Hd & Hi & Hkey & Hact). unfold AppTheme.zoomOut.
  destruct (zoom_min (app w) <? zoom_factor (app w))%float;
    split_invariant; exact Hact.
Qed.

(** A timer callback changes neither the [AppTheme] nor the constants of
    the [WavesEffect]. *)
Lemma run_callback_frame c w :
  app (run_callback c w) = app w
  /\ effectDelay (waves (run_callback c w)) = effectDelay (waves w)
  /\ effectInterval (waves (run_callback c w)) = effectInterval (waves w).
Proof.
  unfold run_callback, WavesEffect.fade_step, WavesEffect.destroy_and_notify.
  destruct c; destruct (effect (waves w)); repeat split.
Qed.

Lemma effect_invariant_tick w : effect_invariant w -> effect_invariant (tick w).
Proof.
  intros (Hd & Hi & Hkey & Hact). unfold tick.
  destruct (pop_timer (timers (env w))) as [[t rest]|] eqn:E;
    [|split_invariant; exact Hact].
  match goal with |- effect_invariant (run_callback ?c ?w0) =>
    destruct (run_callback_frame c w0) as (Ha & Hd' & Hi') end.
  unfold effect_invariant. rewrite Ha, Hd', Hi'. cbn [app waves].
  split; [|split; [|split]]; try assumption.
  intros Hs. destruct (Hact Hs) as (Ht & _). rewrite Ht in E. discriminate.
Qed.

Lemma effect_invariant_perform a w :
  effect_invariant w -> effect_invariant (perform a w).
Proof.
  destruct a; cbn [perform].
  - apply effect_invariant_setTheme.
  - apply effect_invariant_setThemeAccentHue.
  - apply effect_invariant_destroyEffect.
  - apply effect_invariant_zoomIn.
  - apply effect_invariant_zoomOut.
  - apply effect_invariant_tick.
Qed.

Lemma reachable_effect_invariant w : Reachable w -> effect_invariant w.
Proof.
  induction 1 as [storage w H | a w _ IH].
  - eapply effect_invariant_new, H.
  - apply effect_invariant_perform, IH.
Qed.

(** ** Setting the theme that is already set *)

Lemma trace_setProperty name v e :
  trace (setProperty name v e) = (trace e ++ [StyleSet name v]).
Proof. reflexivity. Qed.

Lemma trace_setStyleProperties t e :
  trace (Theme.setStyleProperties t e) = (trace e ++ style_events t).
Proof.
  unfold Theme.setStyleProperties, Theme.setProp, style_events.
  rewrite !trace_setProperty, <- !app_assoc. reflexivity.
Qed.

Lemma trace_setItem key v e :
  trace (setItem key v e) = (trace e ++ [StorageSet key v]).
Proof. reflexivity. Qed.

Lemma trace_log ev e : trace (log ev e) = (trace e ++ [ev]).
Proof. reflexivity. Qed.

(** What [createEffect] returns: the wrapper with a new effect object,
    and the environment with that creation recorded. *)
Lemma createEffect_result props this e this' e' :
  WavesEffect.createEffect props this e = (this', e') ->
  effect this'
  = Some {| vanta_id := created e; vanta_el := element this;
            vanta_color := WavesEffect.color_or_default props;
            opacity := OpacityEmpty |}
  /\ trace e'
     = (trace e
        ++ [EffectCreated (created e) (WavesEffect.color_or_default props)]).
Proof.
  unfold WavesEffect.createEffect, VANTA_WAVES. intros H.
  injection H as <- <-. split; reflexivity.
Qed.

(** C10: in every world the page can be in, with the background effect
    active and the current mode [m] a registered theme, [setTheme(m)] is not
    a no-op: it applies the style variables again, destroys the existing
    effect object at once, creates a new one (a different object) with the
    same tint, and writes the unchanged mode to the storage again. *)
Theorem setTheme_same_mode_restarts_effect (w : World) (k : ThemeKey) :
  Reachable w ->
  AppTheme.isEffectActive w = true ->
  themes_get (AppTheme.getMode w) = TheTheme k ->
  exists v v' w',
    effect (waves w) = Some v
    /\ AppTheme.setTheme (AppTheme.getMode w) w = Normal w'
    /\ w' <> w
    /\ AppTheme.getMode w' = AppTheme.getMode w
    /\ effect (waves w') = Some v'
    /\ vanta_id v' <> vanta_id v
    /\ vanta_color v' = vanta_color v
    /\ trace (env w')
       = (trace (env w)
          ++ style_events (theme_at k (theme_themes (app w)))
          ++ [EffectDestroyed (vanta_id v);
              EffectCreated (vanta_id v') (vanta_color v);
              StorageSet "mode" (AppTheme.getMode w)]).
Proof.
  intros Hr Hs Hk.
  destruct (reachable_effect_invariant w Hr) as (_ & _ & Hkey & Hact).
  unfold AppTheme.isEffectActive in Hs.
  destruct (Hact Hs) as (_ & v & Hv & _ & Hid & Hc).
  unfold AppTheme.getMode in *. specialize (Hc k Hk).
  unfold AppTheme.setTheme. rewrite Hk.
  cbn [effect_selected set_mode_selected theme_themes effect_key effect_mode].
  rewrite Hs, Hv, Hkey.
  destruct (WavesEffect.createEffect _ _ _) as [this' e'] eqn:Hcreate.
  apply createEffect_result in Hcreate as (Heff & Htr).
  rewrite color_or_default_Some, <- Hc in Heff, Htr.
  rewrite trace_log, trace_setStyleProperties, <- !app_assoc in Htr.
  cbn [app] in Htr.
  eexists v, _, _. split; [reflexivity|]. split; [reflexivity|].
  assert (Ht : trace (setItem "mode" (effect_mode (app w)) e')
               = (trace (env w)
                  ++ style_events (theme_at k (theme_themes (app w)))
                  ++ [EffectDestroyed (vanta_id v);
                      EffectCreated (created (env w)) (vanta_color v);
                      StorageSet "mode" (effect_mode (app w))])).
  { rewrite trace_setItem, Htr, <- !app_assoc. reflexivity. }
  split.
  { intros Heq. apply (f_equal (fun w => length (trace (env w)))) in Heq.
    cbn [env] in Heq. rewrite Ht, !length_app in Heq. cbn in Heq. lia. }
  split; [reflexivity|]. split; [exact Heff|].
  split; [cbn; lia|]. split; [reflexivity|]. exact Ht.
Qed.

Lemma setTheme_same_mode_restarts_effect_witness :
  exists w, AppTheme.new (page_load ∅) = Some w
    /\ Reachable w
    /\ AppTheme.isEffectActive w = true
    /\ themes_get (AppTheme.getMode w) = TheTheme light
    /\ exists v v' w',
         effect (waves w) = Some v
         /\ AppTheme.setTheme (AppTheme.getMode w) w = Normal w'
         /\ w' <> w
         /\ AppTheme.getMode w' = AppTheme.getMode w
         /\ effect (waves w') = Some v'
         /\ vanta_id v' <> vanta_id v
         /\ vanta_color v' = vanta_color v
         /\ trace (env w')
            = (trace (env w)
               ++ style_events (theme_at light (theme_themes (app w)))
               ++ [EffectDestroyed (vanta_id v);
                   EffectCreated (vanta_id v') (vanta_color v);
                   StorageSet "mode" (AppTheme.getMode w)]).
Proof.
  eexists. split; [reflexivity|].
  split; [apply (reach_new ∅); reflexivity|].
  split; [reflexivity|]. split; [reflexivity|].
  apply setTheme_same_mode_restarts_effect;
    [apply (reach_new ∅)| |]; reflexivity.
Defined.

(** ** The fade, from [destroyEffect] to the completion callback *)

Lemma fade_timers_50_10 now this p :
  effectDelay this = 50 -> effectInterval this = 10 ->
  fade_timers now this p
  = let fade d := {| due := now + d;
                     callback := FadeStep (WavesEffect.subtractionFactor this) |} in
    [fade 50; fade 100; fade 150; fade 200; fade 250; fade 300; fade 350;
     fade 400; fade 450; fade 500;
     {| due := now + 500; callback := DestroyAndNotify p |}].
Proof. intros Hd Hi. unfold fade_timers. rewrite Hd, Hi. reflexivity. Qed.

Lemma tick_idle w : timers (env w) = [] -> tick w = w.
Proof. intros H. unfold tick. rewrite H. reflexivity. Qed.

Lemma tick_fade w t rest sf v :
  timers (env w) = t :: rest ->
  Forall (fun t' => due t <= due t') rest ->
  callback t = FadeStep sf ->
  effect (waves w) = Some v ->
  app (tick w) = app w
  /\ timers (env (tick w)) = rest
  /\ (exists v', effect (waves (tick w)) = Some v'
                 /\ opacity v' = WavesEffect.faded sf (opacity v))
  /\ exists o, trace (env (tick w))
               = (trace (env w) ++ [OpacitySet (vanta_id v) o]).
Proof.
  intros Ht Hall Hc Hv. unfold tick.
  rewrite Ht, (pop_timer_head t rest Hall), Hc.
  unfold run_callback, WavesEffect.fade_step. cbn [waves env]. rewrite Hv.
  repeat split; eexists; try split; reflexivity.
Qed.

Lemma tick_finish w t rest p v :
  timers (env w) = t :: rest ->
  Forall (fun t' => due t <= due t') rest ->
  callback t = DestroyAndNotify p ->
  effect (waves w) = Some v ->
  app (tick w) = app w
  /\ timers (env (tick w)) = rest
  /\ effect (waves (tick w)) = None
  /\ trace (env (tick w))
     = (trace (env w) ++ [EffectDestroyed (vanta_id v); PostActionCalled p]).
Proof.
  intros Ht Hall Hc Hv. unfold tick.
  rewrite Ht, (pop_timer_head t rest Hall), Hc.
  unfold run_callback, WavesEffect.destroy_and_notify. cbn [waves env].
  rewrite Hv. repeat split. cbn. rewrite <- app_assoc. reflexivity.
Qed.

(** Events the fade does not look at. *)
Lemma marks_unmarked (new extra : list Event) :
  marks extra = [] -> marks (new ++ extra) = marks new.
Proof. intros H. unfold marks in *. rewrite omap_app, H. apply app_nil_r. Qed.

Lemma marks_style_events t : marks (style_events t) = [].
Proof. reflexivity. Qed.

(** A world reached by a call that leaves the effect alone, and whose
    trace grew by events the fade does not look at, is as far in the fade
    as before. *)
Lemma fading_frame now this p base n w w' extra :
  fading now this p base n w ->
  effect_selected (app w') = effect_selected (app w) ->
  timers (env w') = timers (env w) ->
  effect (waves w') = effect (waves w) ->
  trace (env w') = (trace (env w) ++ extra) ->
  marks extra = [] ->
  fading now this p base n w'.
Proof.
  intros (Hs & Ht & Hv & new & Htr & Hm) Hs' Ht' Hv' Htr' Hex.
  split; [congruence|]. split; [congruence|].
  split; [rewrite Hv'; exact Hv|].
  exists (new ++ extra). split.
  - rewrite Htr', Htr, app_assoc. reflexivity.
  - rewrite marks_unmarked; assumption.
Qed.

Lemma fading_same now this p base n w :
  fading now this p base n w -> forall w', w' = w -> fading now this p base n w'.
Proof. intros H w' ->. exact H. Qed.

Lemma fading_setTheme now this p base n w mode :
  fading now this p base n w ->
  fading now this p base n (state_of (AppTheme.setTheme mode w)).
Proof.
  intros H. pose proof H as (Hs & _). unfold AppTheme.setTheme.
  destruct (themes_get mode) as [|k|name].
  - exact H.
  - cbn [effect_selected set_mode_selected]. rewrite Hs. cbn [state_of].
    eapply (fading_frame _ _ _ _ _ w _
              (style_events _ ++ [StorageSet _ _]) H);
      cbn [env waves app]; try reflexivity.
    rewrite trace_setItem, trace_setStyleProperties, <- app_assoc.
    reflexivity.
  - cbn [state_of].
    eapply (fading_frame _ _ _ _ _ w _ [] H); try reflexivity.
    cbn [env]. rewrite app_nil_r. reflexivity.
Qed.

Lemma fading_setThemeAccentHue now this p base n w hue :
  fading now this p base n w ->
  fading now this p base n (state_of (AppTheme.setThemeAccentHue hue w)).
Proof.
  intros H. unfold AppTheme.setThemeAccentHue.
  destruct (theme_selected (app w)) as [|k|name]; try exact H.
  cbn [state_of Theme.setAccentHue].
  eapply (fading_frame _ _ _ _ _ w _ [StyleSet _ _; StorageSet _ _] H);
    try reflexivity.
  cbn [env]. unfold Theme.setProp.
  rewrite trace_setItem, trace_setProperty, <- app_assoc. reflexivity.
Qed.

Lemma fading_destroyEffect now this p base n w p' :
  fading now this p base n w ->
  fading now this p base n (state_of (AppTheme.destroyEffect p' w)).
Proof.
  intros H. pose proof H as (Hs & _). unfold AppTheme.destroyEffect.
  rewrite Hs. exact H.
Qed.

Lemma fading_zoomIn now this p base n w :
  fading now this p base n w -> fading now this p base n (AppTheme.zoomIn w).
Proof.
  intros H. unfold AppTheme.zoomIn.
  destruct (zoom_factor (app w) <? zoom_max (app w))%float; [|exact H].
  eapply (fading_frame _ _ _ _ _ w _ [StorageSet _ _] H); reflexivity.
Qed.

Lemma fading_zoomOut now this p base n w :
  fading now this p base n w -> fading now this p base n (AppTheme.zoomOut w).
Proof.
  intros H. unfold AppTheme.zoomOut.
  destruct (zoom_min (app w) <? zoom_factor (app w))%float; [|exact H].
  eapply (fading_frame _ _ _ _ _ w _ [StorageSet _ _] H); reflexivity.
Qed.

(** One turn of the event loop takes the fade one step further. *)
Lemma fading_tick now this p base n w :
  effectDelay this = 50 -> effectInterval this = 10 ->
  fading now this p base n w ->
  fading now this p base (S n) (tick w).
Proof.
  intros Hd Hi (Hs & Ht & Hv & new & Htr & Hm).
  unfold fading. rewrite fade_timers_50_10 in * by assumption.
  cbv zeta in *.
  do 10 (destruct n as [|n];
    [ cbn [skipn] in *;
      destruct Hv as (v & Hv & Ho); [lia|];
      destruct (tick_fade w _ _ _ v Ht ltac:(repeat constructor; cbn; lia)
                  eq_refl Hv) as (Ha & Ht' & (v' & Hv' & Ho') & o & Htr');
      rewrite Ha, Ht', Htr', Htr;
      split; [exact Hs|]; split; [reflexivity|];
      split; [intros _; exists v'; split; [exact Hv'|];
              rewrite Ho', Ho; reflexivity|];
      eexists (new ++ [_]); split; [symmetry; apply app_assoc|];
      unfold marks in *; rewrite omap_app, Hm; reflexivity
    | ]).
  destruct n as [|n].
  - cbn [skipn] in *. destruct Hv as (v & Hv & _); [lia|].
    destruct (tick_finish w _ _ p v Ht ltac:(repeat constructor) eq_refl Hv)
      as (Ha & Ht' & Hv' & Htr').
    rewrite Ha, Ht', Htr', Htr.
    split; [exact Hs|]. split; [reflexivity|].
    split; [intros Hle; lia|].
    eexists (new ++ [_; _]). split; [symmetry; apply app_assoc|].
    unfold marks in *. rewrite omap_app, Hm. reflexivity.
  - rewrite List.skipn_all2 in Ht by (cbn [length]; lia).
    rewrite (tick_idle w Ht).
    split; [exact Hs|].
    split; [rewrite List.skipn_all2 by (cbn [length]; lia); exact Ht|].
    split; [intros Hle; lia|].
    exists new. split; [exact Htr|]. rewrite Hm. reflexivity.
Qed.

Lemma fading_perform now this p base n w a :
  effectDelay this = 50 -> effectInterval this = 10 ->
  fading now this p base n w ->
  fading now this p base ((if is_timer a then 1 else 0) + n) (perform a w).
Proof.
  intros Hd Hi H. destruct a; cbn [perform is_timer Nat.add].
  - apply fading_setTheme, H.
  - apply fading_setThemeAccentHue, H.
  - apply fading_destroyEffect, H.
  - apply fading_zoomIn, H.
  - apply fading_zoomOut, H.
  - apply fading_tick; assumption.
Qed.

Lemma fading_run now this p base actions : forall n w,
  effectDelay this = 50 -> effectInterval this = 10 ->
  fading now this p base n w ->
  fading now this p base (n + turns actions) (run actions w).
Proof.
  induction actions as [|a actions IH]; intros n w Hd Hi H.
  - cbn. rewrite Nat.add_0_r. exact H.
  - cbn [run fold_left turns].
    replace (n + ((if is_timer a then 1 else 0) + turns actions))%nat
      with (((if is_timer a then 1 else 0) + n) + turns actions)%nat by lia.
    apply IH; try assumption. apply fading_perform; assumption.
Qed.

(** C3: in every world the page can be in with the background effect
    active, [destroyEffect(postAction)] returns, and whatever happens on the
    page afterwards (further calls of the methods of [AppTheme], in any
    order, between the turns of the event loop), the events of the fade
    after [n] turns of the event loop are: [n] fade steps while [n <= 10];
    and from the eleventh turn on the ten fade steps, then the disposal of
    the effect object, then [postAction], called once and never again. *)
Theorem postAction_once_after_fade (w : World) (p : PostAction) :
  Reachable w ->
  AppTheme.isEffectActive w = true ->
  exists w1, AppTheme.destroyEffect p w = Normal w1
    /\ forall actions, exists new,
         trace (env (run actions w1)) = trace (env w) ++ new
         /\ marks new = fade_view (turns actions) p.
Proof.
  intros Hr Hs.
  destruct (reachable_effect_invariant w Hr) as (Hd & Hi & _ & Hact).
  unfold AppTheme.isEffectActive in Hs.
  destruct (Hact Hs) as (Ht & v & Hv & Ho & _).
  unfold AppTheme.destroyEffect. rewrite Hs.
  eexists. split; [reflexivity|]. intros actions.
  match goal with |- context [run actions ?w1] =>
    assert (H0 : fading (clock (env w)) (waves w) p (trace (env w)) 0 w1) end.
  { split; [reflexivity|]. split; [|split].
    - cbn [env]. rewrite destroyEffect_schedules. cbn [timers with_timers].
      rewrite Ht. reflexivity.
    - intros _. exists v. split; [exact Hv | exact Ho].
    - exists []. split; [|reflexivity]. cbn [env].
      rewrite destroyEffect_schedules, app_nil_r. reflexivity. }
  apply (fading_run _ _ _ _ actions) in H0; try assumption.
  destruct H0 as (_ & _ & _ & H0). exact H0.
Qed.

Lemma postAction_once_after_fade_witness :
  exists w, AppTheme.new (page_load ∅) = Some w
    /\ Reachable w
    /\ AppTheme.isEffectActive w = true
    /\ exists w1, AppTheme.destroyEffect 7%nat w = Normal w1
         /\ forall actions, exists new,
              trace (env (run actions w1)) = trace (env w) ++ new
              /\ marks new = fade_view (turns actions) 7%nat.
Proof.
  eexists. split; [reflexivity|].
  split; [apply (reach_new ∅); reflexivity|].
  split; [reflexivity|].
  apply postAction_once_after_fade; [apply (reach_new ∅)|]; reflexivity.
Defined.

(** ** The opacity during the fade *)



(** A style object that kept every digit would show the rounding errors of
    the ten subtractions, and would not end at 0. *)
Lemma fade_keeping_all_digits :
  map (fun n => opacity_text CSS.keep_all_digits
                  (fade (WavesEffect.new "#perceive") n OpacityEmpty))
      (seq 0 11)
  = [""; "0.9"; "0.8"; "0.7000000000000001"; "0.6000000000000001";
     "0.5000000000000001"; "0.40000000000000013"; "0.30000000000000016";
     "0.20000000000000015"; "0.10000000000000014"; "1.3877787807814457e-16"].
Proof. vm_compute. reflexivity. Qed.



(** ** The zoom factor across runs *)

Lemma zoom_invariant_perform a w : zoom_invariant w -> zoom_invariant (perform a w).
Proof.
  intros (Hstep & Hmin & Hmax & Hin).
  destruct (zoom_levels_closed _ Hin) as (Hup & Hdown).
  destruct a; cbn [perform].
  - unfold AppTheme.setTheme. destruct (themes_get mode) as [|k|name];
      [repeat split; assumption| |repeat split; assumption].
    cbn [effect_selected set_mode_selected].
    destruct (effect_selected (app w)); [destruct (effect (waves w))|];
      repeat split; assumption.
  - unfold AppTheme.setThemeAccentHue.
    destruct (theme_selected (app w)); repeat split; assumption.
  - unfold AppTheme.destroyEffect.
    destruct (effect_selected (app w)); repeat split; assumption.
  - unfold AppTheme.zoomIn. rewrite Hmax, Hstep.
    destruct (zoom_factor (app w) <? 2)%float; repeat split; assumption.
  - unfold AppTheme.zoomOut. rewrite Hmin, Hstep.
    destruct (1 <? zoom_factor (app w))%float; repeat split; assumption.
  - unfold tick. destruct (pop_timer (timers (env w))) as [[t rest]|];
      [|repeat split; assumption].
    match goal with |- zoom_invariant (run_callback ?c ?w0) =>
      destruct (run_callback_frame c w0) as (Ha & _) end.
    unfold zoom_invariant. rewrite Ha. repeat split; assumption.
Qed.

(** From the default factor 1 the page never shows a zoom factor other
    than the eleven of [zoom_levels]: the factor stays at or above [min = 1]
    and passes [max = 2] only by the rounding error of the tenth step. *)
Lemma zoom_factor_from_default storage w actions :
  JS.truthy (storage !! "zoom") = false ->
  AppTheme.new (page_load storage) = Some w ->
  In (AppTheme.getZoomFactor (run actions w)) zoom_levels
  /\ (1 <=? AppTheme.getZoomFactor (run actions w))%float = true
  /\ (AppTheme.getZoomFactor (run actions w) <=? 2.000000000000001)%float = true.
Proof.
  intros Hz Hw.
  assert (H : zoom_invariant (run actions w)).
  { assert (H0 : zoom_invariant w).
    { pose (mode := if JS.truthy (storage !! "mode")
                    then default "" (storage !! "mode") else "light").
      destruct (themes_get mode) as [|k|name] eqn:Hk.
      - rewrite (new_with_foreign_mode storage mode) in Hw;
          [discriminate | reflexivity | congruence | congruence].
      - unfold AppTheme.new in Hw. rewrite getItem_page_load in Hw.
        cbn [nth theme_keys] in Hw. fold mode in Hw. rewrite Hk in Hw.
        injection Hw as <-. unfold zoom_invariant. cbn. rewrite Hz.
        repeat split. left. reflexivity.
      - rewrite (new_with_foreign_mode storage mode) in Hw;
          [discriminate | reflexivity | congruence | congruence]. }
    clear Hw. revert w H0.
    induction actions as [|a actions IH]; intros w H0; [exact H0|].
    cbn [run fold_left]. apply IH, zoom_invariant_perform, H0. }
  destruct H as (_ & _ & _ & Hin). unfold AppTheme.getZoomFactor.
  split; [exact Hin|].
  cbn [In zoom_levels] in Hin.
  repeat (destruct Hin as [<- | Hin]; [split; reflexivity|]). contradiction.
Qed.
